(** * Thinking-budget sampling loop of [Blog/s1-vllm-thinking-budget/s1.py]

    A shallow embedding of [run_thinking_budget_sample] and of the helpers it
    calls ([build_input], [count_thinking_token], [count_token]).

    - Python [int] is [Z]; [str] is [string]; the sampling temperature is a
      binary64 float.
    - The model handle ([llm_model]) and the tokenizer are interfaces: the
      first is a state-passing [generate], the second a pair of pure
      functions.
    - Effects (generation calls, [print], the clock, the output file) are
      threaded through an explicit [World]; exceptions and the fuel that
      bounds [while True] are the three-way [Outcome].
    - Two exceptions can end a run: [IndexError], from reading a response
      without output, and [ValueError], from the engine's constructor of
      sampling parameters, which refuses a token cap below 1. *)

From Stdlib Require Import ZArith List String Ascii Bool Lia Floats.
Import ListNotations.

#[local] Open Scope string_scope.
#[local] Open Scope Z_scope.

(** ** Strings *)

(** The newline character, written [\n] in the Python literals. *)
Definition nl : string := String (ascii_of_nat 10) EmptyString.

(** [s.split(sep)] for a non-empty separator: the pieces of [s] between the
    non-overlapping occurrences of [sep], found left to right.  [skip] counts
    the characters of a matched separator still to be dropped.  (Python raises
    [ValueError] on an empty separator; every call site passes a literal.) *)
Definition cons_head (c : ascii) (l : list string) : list string :=
  match l with
  | [] => [String c EmptyString]
  | seg :: rest => String c seg :: rest
  end.

Fixpoint split_from (sep : string) (skip : nat) (s : string) : list string :=
  match s with
  | EmptyString => [EmptyString]
  | String c s' =>
      match skip with
      | S k => split_from sep k s'
      | O =>
          if String.prefix sep s
          then EmptyString :: split_from sep (String.length sep - 1) s'
          else cons_head c (split_from sep 0 s')
      end
  end.

Definition split (sep s : string) : list string := split_from sep 0 s.

(** [l[-1]] and [l[0]] on the result of a split, which is never empty. *)
Definition last_piece (l : list string) : string := last l EmptyString.
Definition first_piece (l : list string) : string := hd EmptyString l.

(** [s.endswith(suffix)], as a proposition. *)
Definition ends_with (s suffix : string) : Prop :=
  exists before, s = before ++ suffix.

(** The markers of the script. *)
Definition think_open_nl : string := "<think>" ++ nl.        (* "<think>\n" *)
Definition think_open : string := "<think>".
Definition think_close : string := "</think>".
Definition wait_marker : string := nl ++ "Wait!" ++ nl.      (* "\nWait!\n" *)
Definition close_marker : string := nl ++ "</think>" ++ nl.  (* "\n</think>\n" *)

(** ** Data of the generation engine *)

Record SamplingParams := {
  temperature : float;
  max_tokens : Z;
  stop : option string;
  skip_special_tokens : bool
}.

Record CompletionOutput := { text : string }.

Record RequestOutput := {
  prompt : string;
  outputs : list CompletionOutput
}.

Record Message := { role : string; content : string }.

(** The tokenizer handle: [tokenizer(s)["input_ids"]] and
    [tokenizer.apply_chat_template(messages, tokenize, add_generation_prompt,
    enable_thinking)]. *)
Class Tokenizer := {
  input_ids : string -> list Z;
  apply_chat_template : list Message -> bool -> bool -> bool -> string
}.

(** The model handle: [llm_model.generate(input_text, sampling_params)], with
    the engine's own state [M] passed explicitly.  A call that fails inside
    the engine aborts the script and is not modelled. *)
Class LLM (M : Type) := {
  generate : M -> string -> SamplingParams -> M * list RequestOutput
}.

(** ** Effects *)

(** [IndexError] comes from [l[0]] on an empty list, [ValueError] from the
    engine's check of sampling parameters. *)
Inductive Exception := IndexError | ValueError.

Inductive Result (A : Type) :=
| Ok (a : A)
| Err (e : Exception).
Arguments Ok {A} a.
Arguments Err {A} e.

(** What a run of a program fragment ends in.  [OutOfFuel] stands for a
    [while True] that is still running when the fuel is spent. *)
Inductive Outcome (A : Type) :=
| Returned (a : A)
| Raised (e : Exception)
| OutOfFuel.
Arguments Returned {A} a.
Arguments Raised {A} e.
Arguments OutOfFuel {A}.

(** One generation call as the engine saw it, with what it answered. *)
Record Call := {
  call_input : string;
  call_params : SamplingParams;
  call_response : list RequestOutput
}.

(** The diagnostic line: iteration count, input, thinking and total tokens. *)
Record Summary := {
  sum_iterations : Z;
  sum_input_tokens : Z;
  sum_thinking_tokens : Z;
  sum_total_tokens : Z
}.

(** Lines written by [print]. *)
Inductive Line :=
| RoundLine (iteration think_tokens : Z)   (* line 58 *)
| TextLine (s : string)                    (* line 77 *)
| SummaryLine (r : Summary).               (* line 79 *)

(** The file [output_<timestamp>.txt] with its two writes. *)
Record OutputFile := {
  file_timestamp : Z;
  file_content : string;
  file_summary : Summary
}.

Record World (M : Type) := {
  model : M;
  calls : list Call;
  stdout : list Line;
  clock : Z;
  files : list OutputFile
}.
Arguments model {M} w.
Arguments calls {M} w.
Arguments stdout {M} w.
Arguments clock {M} w.
Arguments files {M} w.

Definition init_world {M : Type} (m : M) (now : Z) : World M :=
  {| model := m; calls := []; stdout := []; clock := now; files := [] |}.

Definition Prog (M A : Type) : Type := World M -> Outcome A * World M.

Definition ret {M A} (a : A) : Prog M A := fun w => (Returned a, w).

Definition bind {M A B} (c : Prog M A) (k : A -> Prog M B) : Prog M B :=
  fun w =>
    match c w with
    | (Returned a, w') => k a w'
    | (Raised e, w') => (Raised e, w')
    | (OutOfFuel, w') => (OutOfFuel, w')
    end.

Definition lift {M A} (r : Result A) : Prog M A :=
  fun w => match r with Ok a => (Returned a, w) | Err e => (Raised e, w) end.

Definition out_of_fuel {M A} : Prog M A := fun w => (OutOfFuel, w).

Declare Scope prog_scope.
Delimit Scope prog_scope with prog.
Notation "x <- c ;; k" := (bind c (fun x => k))
  (at level 61, c at next level, right associativity) : prog_scope.
Notation "' pat <- c ;; k" := (bind c (fun x => match x with pat => k end))
  (at level 61, pat pattern, c at next level, right associativity) : prog_scope.
Notation "c ;;; k" := (bind c (fun _ => k))
  (at level 61, right associativity) : prog_scope.

(** [l[0]]: the first element, or [IndexError]. *)
Definition index0 {A} (l : list A) : Result A :=
  match l with
  | [] => Err IndexError
  | x :: _ => Ok x
  end.

Definition print {M} (l : Line) : Prog M unit :=
  fun w => (Returned tt,
            {| model := model w; calls := calls w; stdout := stdout w ++ [l];
               clock := clock w; files := files w |}).

(** [int(time.time())] *)
Definition time {M} : Prog M Z := fun w => (Returned (clock w), w).

Definition write_file {M} (f : OutputFile) : Prog M unit :=
  fun w => (Returned tt,
            {| model := model w; calls := calls w; stdout := stdout w;
               clock := clock w; files := files w ++ [f] |}).

Section Program.

Context {M : Type} {llm : LLM M} {tok : Tokenizer}.

(** [llm_model.generate(input, params)]; the call is recorded. *)
Definition llm_generate (input : string) (params : SamplingParams)
  : Prog M (list RequestOutput) :=
  fun w =>
    let (m', response) := generate (model w) input params in
    (Returned response,
     {| model := m';
        calls := calls w ++ [{| call_input := input; call_params := params;
                                call_response := response |}];
        stdout := stdout w; clock := clock w; files := files w |}).

(** ** The script *)

Definition system_instruction : string :=
  "Please reason step by step, and put your final answer within \boxed{{}}.".

Definition build_input (prompt : string) : string :=
  let messages :=
    [ {| role := "system"; content := system_instruction |};
      {| role := "user"; content := prompt |} ] in
  apply_chat_template messages false true true.

(** [outputs[0].prompt + outputs[0].outputs[0].text] *)
Definition prompt_plus_text (outs : list RequestOutput) : Result string :=
  match index0 outs with
  | Err e => Err e
  | Ok o =>
      match index0 (outputs o) with
      | Err e => Err e
      | Ok c => Ok (prompt o ++ text c)
      end
  end.

Definition count_token (s : string) : Z :=
  Z.of_nat (List.length (input_ids s)).

Definition count_thinking_token (outs : list RequestOutput)
  : Result (string * Z) :=
  match prompt_plus_text outs with
  | Err e => Err e
  | Ok total_token =>
      let thinking_token := last_piece (split think_open_nl total_token) in
      let thinking_token_id := input_ids thinking_token in
      Ok (total_token, Z.of_nat (List.length thinking_token_id))
  end.

(** The local variables that live across rounds of the loop. *)
Record Locals := {
  input_text : string;
  iteration_count : Z;
  think_token_count : Z
}.

Inductive Flow :=
| Break (l : Locals) (outs : list RequestOutput)
| Continue (l : Locals).

(** [SamplingParams(temperature=.., max_tokens=.., stop=..,
    skip_special_tokens=..)]: the engine's constructor stores its arguments
    and verifies them.  Of its checks the one on [max_tokens] is the only one
    the script can fail: a value below 1 raises [ValueError]. *)
Definition SamplingParams_init (temperature : float) (max_tokens : Z)
  (stop : option string) (skip_special_tokens : bool)
  : Result SamplingParams :=
  if max_tokens <? 1
  then Err ValueError
  else Ok {| temperature := temperature;
             max_tokens := max_tokens;
             stop := stop;
             skip_special_tokens := skip_special_tokens |}.

(** Lines 45-50. *)
Definition wait_sampling_params (thinking_budget count : Z)
  : Result SamplingParams :=
  SamplingParams_init 0x1.6666666666666p-1%float   (* 0.7 *)
    (thinking_budget - count) (Some think_close) false.

(** Lines 35-39: the parameters of the final call, and the record the
    constructor returns for them. *)
Definition final_sampling_params : Result SamplingParams :=
  SamplingParams_init 0x1.6666666666666p-1%float   (* 0.7 *)
    4096 None false.

Definition sampling_params : SamplingParams :=
  {| temperature := 0x1.6666666666666p-1%float;   (* 0.7 *)
     max_tokens := 4096;
     stop := None;
     skip_special_tokens := false |}.

#[local] Open Scope prog_scope.

(** Lines 45-67: one execution of the loop body. *)
Definition loop_body (thinking_budget : Z) (l : Locals) : Prog M Flow :=
  wait_params <- lift (wait_sampling_params thinking_budget
                         (think_token_count l)) ;;
  outs <- llm_generate (input_text l) wait_params ;;
  '(total_token, count) <- lift (count_thinking_token outs) ;;
  print (RoundLine (iteration_count l) count) ;;;
  if count >? thinking_budget
  then ret (Break {| input_text := input_text l;
                     iteration_count := iteration_count l;
                     think_token_count := count |} outs)
  else ret (Continue {| input_text := total_token ++ wait_marker;
                        iteration_count := iteration_count l + 1;
                        think_token_count := count |}).

(** Lines 43-67: [while True], at most [fuel] rounds. *)
Fixpoint while_true (fuel : nat) (thinking_budget : Z) (l : Locals)
  : Prog M (Locals * list RequestOutput) :=
  match fuel with
  | O => out_of_fuel
  | S fuel' =>
      flow <- loop_body thinking_budget l ;;
      match flow with
      | Break l' outs => ret (l', outs)
      | Continue l' => while_true fuel' thinking_budget l'
      end
  end.

(** The locals at lines 29-41, before the first round. *)
Definition loop_init (input_text : string) : Locals :=
  {| input_text := input_text;
     iteration_count := 0;
     think_token_count := 0 |}.

(** [total_content.split("<think>")[-1].split("</think>")[0]] *)
Definition thinking_content_of (total_content : string) : string :=
  first_piece (split think_close (last_piece (split think_open total_content))).

(** Lines 69-84: what follows the loop. *)
Definition finish (params : SamplingParams) (input_token_count : Z)
  (l : Locals) (outs : list RequestOutput) : Prog M unit :=
  accumulated <- lift (prompt_plus_text outs) ;;
  final_outputs <- llm_generate (accumulated ++ close_marker) params ;;
  total_content <- lift (prompt_plus_text final_outputs) ;;
  let thinking_content := thinking_content_of total_content in
  print (TextLine total_content) ;;;
  let summary :=
    {| sum_iterations := iteration_count l;
       sum_input_tokens := input_token_count;
       sum_thinking_tokens := count_token thinking_content;
       sum_total_tokens := count_token total_content |} in
  print (SummaryLine summary) ;;;
  now <- time ;;
  write_file {| file_timestamp := now; file_content := total_content;
                file_summary := summary |}.

Definition run_thinking_budget_sample (fuel : nat) (user_input : string)
  (thinking_budget : Z) : Prog M unit :=
  let input_text := build_input user_input in
  let input_token_count := count_token input_text in
  let max_token := input_token_count + thinking_budget in   (* never read *)
  params <- lift final_sampling_params ;;
  '(l, outs) <- while_true fuel thinking_budget (loop_init input_text) ;;
  finish params input_token_count l outs.

End Program.

(** ** The loop as a function of the responses it received

    [replay] is a proof device, not part of the script: it reruns the loop
    body, for at most [fuel] rounds, against a given list of engine
    responses and returns the calls issued, the lines printed and the
    outcome.  [while_true_replay] shows that every run of [while_true] is the
    replay of the responses it logged, so the properties of the loop can be
    proved on [replay], without the world. *)

Section Replay.

Context {tok : Tokenizer}.

Definition break_locals (l : Locals) (count : Z) : Locals :=
  {| input_text := input_text l;
     iteration_count := iteration_count l;
     think_token_count := count |}.

Definition continue_locals (l : Locals) (total_token : string) (count : Z)
  : Locals :=
  {| input_text := total_token ++ wait_marker;
     iteration_count := iteration_count l + 1;
     think_token_count := count |}.

Definition loop_call (l : Locals) (params : SamplingParams)
  (response : list RequestOutput) : Call :=
  {| call_input := input_text l;
     call_params := params;
     call_response := response |}.

Fixpoint replay (fuel : nat) (thinking_budget : Z) (l : Locals)
  (responses : list (list RequestOutput))
  : list Call * list Line * Outcome (Locals * list RequestOutput) :=
  match fuel with
  | O => ([], [], OutOfFuel)
  | S fuel' =>
      match wait_sampling_params thinking_budget (think_token_count l) with
      | Err e => ([], [], Raised e)
      | Ok params =>
          match responses with
          | [] => ([], [], OutOfFuel)
          | r :: rest =>
              let c := loop_call l params r in
              match count_thinking_token r with
              | Err e => ([c], [], Raised e)
              | Ok (total_token, count) =>
                  let line := RoundLine (iteration_count l) count in
                  if count >? thinking_budget
                  then ([c], [line], Returned (break_locals l count, r))
                  else
                    let '(cs, ls, o) :=
                      replay fuel' thinking_budget
                        (continue_locals l total_token count) rest in
                    (c :: cs, line :: ls, o)
              end
          end
      end
  end.

End Replay.

(** World updates, for the statements below. *)
Definition log_call {M} (w : World M) (m' : M) (c : Call) : World M :=
  {| model := m'; calls := calls w ++ [c]; stdout := stdout w;
     clock := clock w; files := files w |}.

Definition log_line {M} (w : World M) (l : Line) : World M :=
  {| model := model w; calls := calls w; stdout := stdout w ++ [l];
     clock := clock w; files := files w |}.

(** The constructor accepts a cap of at least 1 and nothing below. *)
Lemma wait_sampling_params_ok (B count : Z) (params : SamplingParams) :
  wait_sampling_params B count = Ok params ->
  1 <= B - count /\
  max_tokens params = B - count /\
  stop params = Some think_close /\
  skip_special_tokens params = false.
Proof.
  unfold wait_sampling_params, SamplingParams_init.
  destruct (Z.ltb_spec (B - count) 1); intros E; inversion E; subst.
  cbn. auto.
Qed.

Lemma wait_sampling_params_err (B count : Z) (e : Exception) :
  wait_sampling_params B count = Err e ->
  e = ValueError /\ B - count < 1.
Proof.
  unfold wait_sampling_params, SamplingParams_init.
  destruct (Z.ltb_spec (B - count) 1); intros E; inversion E; subst.
  auto.
Qed.

Lemma wait_sampling_params_accepts (B count : Z) :
  1 <= B - count ->
  exists params, wait_sampling_params B count = Ok params.
Proof.
  intros H. unfold wait_sampling_params, SamplingParams_init.
  destruct (Z.ltb_spec (B - count) 1); [lia|]. eexists. reflexivity.
Qed.

Lemma final_sampling_params_ok : final_sampling_params = Ok sampling_params.
Proof. reflexivity. Qed.

Section LoopFacts.

Context {M : Type} {llm : LLM M} {tok : Tokenizer}.

Lemma loop_body_eq (B : Z) (l : Locals) (w : World M) :
  loop_body B l w =
    match wait_sampling_params B (think_token_count l) with
    | Err e => (Raised e, w)
    | Ok params =>
        let (m', outs) := generate (model w) (input_text l) params in
        let w1 := log_call w m' (loop_call l params outs) in
        match count_thinking_token outs with
        | Err e => (Raised e, w1)
        | Ok (total_token, count) =>
            (Returned (if count >? B
                       then Break (break_locals l count) outs
                       else Continue (continue_locals l total_token count)),
             log_line w1 (RoundLine (iteration_count l) count))
        end
    end.
Proof.
  unfold loop_body, bind, llm_generate, lift, print, ret.
  destruct (wait_sampling_params _ _) as [params|e]; [|reflexivity].
  destruct (generate _ _ _) as [m' outs]; cbn.
  destruct (count_thinking_token outs) as [[total n]|e]; cbn; [|reflexivity].
  destruct (n >? B); reflexivity.
Qed.

Lemma while_true_S (fuel : nat) (B : Z) (l : Locals) (w : World M) :
  while_true (S fuel) B l w =
    match loop_body B l w with
    | (Returned (Break l' outs), w') => (Returned (l', outs), w')
    | (Returned (Continue l'), w') => while_true fuel B l' w'
    | (Raised e, w') => (Raised e, w')
    | (OutOfFuel, w') => (OutOfFuel, w')
    end.
Proof.
  cbn [while_true]. unfold bind.
  destruct (loop_body B l w) as [[[l' outs|l']|e|] w']; reflexivity.
Qed.

(** Every run of the loop is the replay of the responses it logged. *)
Lemma while_true_replay (fuel : nat) (B : Z) :
  forall (l : Locals) (w : World M) r w',
    while_true fuel B l w = (r, w') ->
    exists cs ls,
      replay fuel B l (map call_response cs) = (cs, ls, r) /\
      calls w' = (calls w ++ cs)%list /\
      stdout w' = (stdout w ++ ls)%list /\
      clock w' = clock w /\ files w' = files w /\
      (List.length cs <= fuel)%nat /\
      (r = OutOfFuel -> List.length cs = fuel).
Proof.
  induction fuel as [|fuel IH]; intros l w r w' Hrun.
  - cbn in Hrun. unfold out_of_fuel in Hrun. inversion Hrun; subst.
    exists [], []. cbn. rewrite !app_nil_r. repeat split; auto.
  - rewrite while_true_S, loop_body_eq in Hrun. cbn [replay].
    destruct (wait_sampling_params _ _) as [params|e] eqn:Hparams.
    + destruct (generate _ _ _) as [m' outs] eqn:Hgen. cbn zeta in Hrun.
      destruct (count_thinking_token outs) as [[total n]|e] eqn:Hcount.
      * destruct (n >? B) eqn:Hgt.
        -- inversion Hrun; subst.
           exists [loop_call l params outs], [RoundLine (iteration_count l) n].
           cbn. rewrite Hcount, Hgt.
           repeat split; auto; try lia; discriminate.
        -- apply IH in Hrun.
           destruct Hrun as (cs & ls & Hrep & Hc & Hs & Hk & Hf & Hlen & Hout).
           exists (loop_call l params outs :: cs),
             (RoundLine (iteration_count l) n :: ls).
           cbn. rewrite Hcount, Hgt, Hrep.
           cbn in Hc, Hs, Hk, Hf.
           rewrite <- !app_assoc in Hc, Hs. cbn in Hc, Hs.
           repeat split; auto; try lia.
      * inversion Hrun; subst.
        exists [loop_call l params outs], []. cbn. rewrite Hcount, app_nil_r.
        repeat split; auto; try lia; discriminate.
    + inversion Hrun; subst. exists [], []. cbn. rewrite !app_nil_r.
      repeat split; auto; try lia; discriminate.
Qed.

End LoopFacts.

(** ** Mock engines and tokenizers *)

Module Mock.

(** [n] copies of the letter x. *)
Fixpoint xs (n : nat) : string :=
  match n with
  | O => EmptyString
  | S k => String "x"%char (xs k)
  end.

(** A tokenizer with one token per character; the chat template writes one
    line per message and opens the assistant turn. *)
Definition char_ids (s : string) : list Z :=
  map (fun c => Z.of_nat (nat_of_ascii c)) (list_ascii_of_string s).

Definition render (messages : list Message) : string :=
  fold_right (fun m acc => role m ++ ": " ++ content m ++ nl ++ acc)
    "assistant: " messages.

Definition CharTokenizer : Tokenizer :=
  {| input_ids := char_ids;
     apply_chat_template := fun messages _ _ _ => render messages |}.

(** An engine that answers its [k]-th call with [script k], whatever it is
    asked. *)
Definition SeqLLM (script : nat -> list RequestOutput) : LLM nat :=
  {| generate := fun k _ _ => (S k, script k) |}.

(** An engine that echoes the prompt, as the real one does, and continues
    it with [script k] on its [k]-th call. *)
Definition EchoLLM (script : nat -> string) : LLM nat :=
  {| generate := fun k input _ =>
       (S k, [ {| prompt := input; outputs := [ {| text := script k |} ] |} ]) |}.

(** A model that re-opens its reasoning segment in every answer. *)
Definition reopen : list RequestOutput :=
  [ {| prompt := EmptyString; outputs := [ {| text := think_open_nl |} ] |} ].

(** A model that reasons for [n] more tokens of [CharTokenizer] per call:
    the first answer opens the segment, the later ones follow the seven
    characters of the wait marker. *)
Definition steady (n : nat) (k : nat) : string :=
  match k with
  | O => think_open_nl ++ xs n
  | S _ => xs (n - 7)
  end.

(** A model that follows a finite list of continuations, then falls
    silent. *)
Definition scripted (texts : list string) (k : nat) : string :=
  nth k texts EmptyString.

(** A model that reasons for [n] tokens at once, then answers. *)
Definition burst (n : nat) : nat -> string :=
  scripted [think_open_nl ++ xs n; "4"].

(** A model whose reasoning mentions the opening tag, then answers. *)
Definition quoting : nat -> string :=
  scripted [think_open_nl ++ "the tag <think> opens reasoning"; "4"].


(** A model that stays within its caps under a budget of 32768: it fills
    the first cap (the tag and 32760 tokens of reasoning), then the second
    (8 tokens), then answers. *)
Definition filling : nat -> string :=
  scripted [think_open_nl ++ xs (Z.to_nat 32760); xs 8; "4"].

End Mock.

(** ** Properties of the replayed loop *)

(** The parameters of the in-loop calls, field by field: each cap is the
    budget minus the count measured on the previous response, the first the
    budget minus [count]; each call stops at the closing tag and keeps
    special tokens. *)
Fixpoint caps_follow {tok : Tokenizer} (thinking_budget count : Z)
  (cs : list Call) : Prop :=
  match cs with
  | [] => True
  | c :: rest =>
      max_tokens (call_params c) = thinking_budget - count /\
      stop (call_params c) = Some "</think>" /\
      skip_special_tokens (call_params c) = false /\
      match count_thinking_token (call_response c) with
      | Ok (_, count') => caps_follow thinking_budget count' rest
      | Err _ => rest = []
      end
  end.

(** The count a round line reports. *)
Definition line_count (l : Line) : option Z :=
  match l with
  | RoundLine _ n => Some n
  | _ => None
  end.

Section ReplayFacts.

Context {tok : Tokenizer}.

Lemma count_nonneg (outs : list RequestOutput) (total : string) (n : Z) :
  count_thinking_token outs = Ok (total, n) -> 0 <= n.
Proof.
  unfold count_thinking_token.
  destruct (prompt_plus_text outs); intros H; inversion H; lia.
Qed.

Lemma count_total (outs : list RequestOutput) (total : string) (n : Z) :
  count_thinking_token outs = Ok (total, n) ->
  prompt_plus_text outs = Ok total.
Proof.
  unfold count_thinking_token.
  destruct (prompt_plus_text outs); intros H; inversion H; reflexivity.
Qed.

(** A replay that returns took the break on its last response, whose count
    exceeds the budget; the counts before it did not. *)
Lemma replay_returned (B : Z) :
  forall fuel rs l cs ls l' outs,
    replay fuel B l rs = (cs, ls, Returned (l', outs)) ->
    B < think_token_count l' /\
    iteration_count l' = iteration_count l + Z.of_nat (List.length cs) - 1 /\
    (exists total,
        count_thinking_token outs = Ok (total, think_token_count l')) /\
    (exists cs0 c ls0,
        cs = (cs0 ++ [c])%list /\
        call_response c = outs /\
        call_input c = input_text l' /\
        ls = (ls0 ++ [RoundLine (iteration_count l') (think_token_count l')])%list /\
        List.length ls0 = List.length cs0 /\
        Forall (fun line => exists n, line_count line = Some n /\ n <= B) ls0).
Proof.
  induction fuel as [|fuel IH]; intros rs l cs ls l' outs H; cbn [replay] in H.
  - discriminate.
  - destruct (wait_sampling_params B (think_token_count l)) as [params|e];
      [|discriminate].
    destruct rs as [|r rs]; [discriminate|].
    destruct (count_thinking_token r) as [[total n]|e] eqn:Hcount;
      [|discriminate].
    destruct (n >? B) eqn:Hgt.
    + inversion H; subst; clear H. cbn.
      apply Z.gtb_lt in Hgt.
      repeat split; try lia.
      * exists total. exact Hcount.
      * exists [], (loop_call l params outs), []. cbn. repeat split; auto.
    + destruct (replay fuel B _ rs) as [[cs' ls'] o'] eqn:E.
      inversion H; subst; clear H.
      destruct (IH _ _ _ _ _ _ E)
        as (Hb & Hit & Hc & cs0 & c & ls0 & -> & Hr & Hi & -> & Hlen & Hall).
      cbn in Hit. rewrite length_app in Hit. cbn in Hit.
      repeat split; auto.
      * cbn. rewrite length_app. cbn. lia.
      * exists (loop_call l params r :: cs0), c,
          (RoundLine (iteration_count l) n :: ls0).
        cbn. repeat split; auto.
        constructor; auto.
        exists n. split; [reflexivity|].
        destruct (Z.gtb_spec n B); [discriminate | lia].
Qed.

(** Two replays of the same responses that both return agree, whatever
    their fuel. *)
Lemma replay_returned_same (B : Z) :
  forall fuel1 fuel2 rs l cs1 ls1 x1 cs2 ls2 x2,
    replay fuel1 B l rs = (cs1, ls1, Returned x1) ->
    replay fuel2 B l rs = (cs2, ls2, Returned x2) ->
    cs1 = cs2 /\ ls1 = ls2 /\ x1 = x2.
Proof.
  induction fuel1 as [|fuel1 IH]; intros fuel2 rs l cs1 ls1 x1 cs2 ls2 x2 H1 H2;
    cbn [replay] in H1; [discriminate|].
  destruct fuel2 as [|fuel2]; cbn [replay] in H2; [discriminate|].
  destruct (wait_sampling_params B (think_token_count l)) as [params|e];
    [|discriminate].
  destruct rs as [|r rs]; [discriminate|].
  destruct (count_thinking_token r) as [[total n]|e]; [|discriminate].
  destruct (n >? B).
  - inversion H1; inversion H2; subst. auto.
  - destruct (replay fuel1 B _ rs) as [[cs1' ls1'] o1] eqn:E1.
    destruct (replay fuel2 B _ rs) as [[cs2' ls2'] o2] eqn:E2.
    inversion H1; inversion H2; subst.
    destruct (IH _ _ _ _ _ _ _ _ _ E1 E2) as (-> & -> & ->). auto.
Qed.

(** The parameters of the in-loop calls follow the measured counts. *)
Lemma replay_caps_follow (B : Z) :
  forall fuel rs l cs ls o,
    replay fuel B l rs = (cs, ls, o) ->
    caps_follow B (think_token_count l) cs.
Proof.
  induction fuel as [|fuel IH]; intros rs l cs ls o H; cbn [replay] in H.
  - inversion H. exact I.
  - destruct (wait_sampling_params B (think_token_count l)) as [params|e]
      eqn:Hp; [|inversion H; exact I].
    apply wait_sampling_params_ok in Hp. destruct Hp as (_ & Hm & Hs & Hk).
    destruct rs as [|r rs]; [inversion H; exact I|].
    destruct (count_thinking_token r) as [[total n]|e] eqn:Hcount.
    + destruct (n >? B) eqn:Hgt.
      * inversion H; subst. cbn. rewrite Hcount. cbn. auto.
      * destruct (replay fuel B _ rs) as [[cs' ls'] o'] eqn:E.
        inversion H; subst. cbn. rewrite Hcount.
        repeat split; auto. apply (IH _ _ _ _ _ E).
    + inversion H; subst. cbn. rewrite Hcount. auto.
Qed.

(** Every in-loop cap is at least 1, and at most the budget when the count
    at the start is not negative. *)
Lemma replay_caps_range (B : Z) :
  forall fuel rs l cs ls o,
    replay fuel B l rs = (cs, ls, o) ->
    0 <= think_token_count l ->
    Forall (fun c => 1 <= max_tokens (call_params c) <= B) cs.
Proof.
  induction fuel as [|fuel IH]; intros rs l cs ls o H Hl; cbn [replay] in H.
  - inversion H. constructor.
  - destruct (wait_sampling_params B (think_token_count l)) as [params|e]
      eqn:Hp; [|inversion H; constructor].
    apply wait_sampling_params_ok in Hp. destruct Hp as (Hge & Hm & _).
    destruct rs as [|r rs]; [inversion H; constructor|].
    assert (Hc : 1 <= max_tokens (call_params (loop_call l params r)) <= B)
      by (cbn; lia).
    destruct (count_thinking_token r) as [[total n]|e] eqn:Hcount.
    + destruct (n >? B) eqn:Hgt.
      * inversion H; subst. repeat constructor; apply Hc.
      * destruct (replay fuel B _ rs) as [[cs' ls'] o'] eqn:E.
        inversion H; subst. constructor; [apply Hc|].
        apply (IH _ _ _ _ _ E). cbn. apply (count_nonneg _ _ _ Hcount).
    + inversion H; subst. repeat constructor; apply Hc.
Qed.

End ReplayFacts.

Section MoreReplayFacts.

Context {tok : Tokenizer}.




End MoreReplayFacts.

(** ** What follows the loop *)

Section RunFacts.

Context {M : Type} {llm : LLM M} {tok : Tokenizer}.

Definition final_call (accumulated : string) (response : list RequestOutput)
  : Call :=
  {| call_input := accumulated ++ close_marker;
     call_params := sampling_params;
     call_response := response |}.

Definition final_summary (input_token_count : Z) (l : Locals)
  (total_content : string) : Summary :=
  {| sum_iterations := iteration_count l;
     sum_input_tokens := input_token_count;
     sum_thinking_tokens := count_token (thinking_content_of total_content);
     sum_total_tokens := count_token total_content |}.

Lemma finish_eq (n : Z) (l : Locals) (outs : list RequestOutput)
  (w : World M) :
  finish sampling_params n l outs w =
    match prompt_plus_text outs with
    | Err e => (Raised e, w)
    | Ok accumulated =>
        let (m', response) :=
          generate (model w) (accumulated ++ close_marker) sampling_params in
        let w1 := log_call w m' (final_call accumulated response) in
        match prompt_plus_text response with
        | Err e => (Raised e, w1)
        | Ok total_content =>
            let s := final_summary n l total_content in
            (Returned tt,
             {| model := m';
                calls := calls w1;
                stdout := (stdout w ++ [TextLine total_content; SummaryLine s])%list;
                clock := clock w;
                files := (files w ++ [ {| file_timestamp := clock w;
                                          file_content := total_content;
                                          file_summary := s |} ])%list |})
        end
    end.
Proof.
  unfold finish, bind, lift, llm_generate, print, time, write_file.
  destruct (prompt_plus_text outs) as [acc|e]; [|reflexivity].
  destruct (generate _ _ _) as [m' response]; cbn.
  destruct (prompt_plus_text response) as [tc|e]; [|reflexivity].
  cbn. rewrite <- app_assoc. reflexivity.
Qed.

Lemma run_eq (fuel : nat) (u : string) (B : Z) (w : World M) :
  run_thinking_budget_sample fuel u B w =
    match while_true fuel B (loop_init (build_input u)) w with
    | (Returned (l, outs), w1) =>
        finish sampling_params (count_token (build_input u)) l outs w1
    | (Raised e, w1) => (Raised e, w1)
    | (OutOfFuel, w1) => (OutOfFuel, w1)
    end.
Proof.
  unfold run_thinking_budget_sample, bind.
  rewrite final_sampling_params_ok. cbn [lift].
  destruct (while_true fuel B (loop_init (build_input u)) w)
    as [[[l outs]|e|] w1]; reflexivity.
Qed.

End RunFacts.

(** ** The loop, entered from a fresh world *)

Section Claims.

Context {M : Type} {llm : LLM M} {tok : Tokenizer}.

Lemma loop_from_init (fuel : nat) (B : Z) (u : string) (m : M) (now : Z) r w' :
  while_true fuel B (loop_init (build_input u)) (init_world m now) = (r, w') ->
  replay fuel B (loop_init (build_input u)) (map call_response (calls w'))
    = (calls w', stdout w', r) /\
  clock w' = now /\ files w' = [] /\
  (List.length (calls w') <= fuel)%nat /\
  (r = OutOfFuel -> List.length (calls w') = fuel).
Proof.
  intros H. apply while_true_replay in H.
  destruct H as (cs & ls & Hrep & Hc & Hs & Hk & Hf & Hlen & Hout).
  cbn in Hc, Hs, Hk, Hf. rewrite Hc, Hs. auto.
Qed.

(** After a loop that exits, the function issues its final call. *)
Lemma run_after_loop (fuel : nat) (B : Z) (u : string) (m : M) (now : Z)
  l outs w1 :
  while_true fuel B (loop_init (build_input u)) (init_world m now)
    = (Returned (l, outs), w1) ->
  exists accumulated m' response,
    prompt_plus_text outs = Ok accumulated /\
    generate (model w1) (accumulated ++ close_marker) sampling_params
      = (m', response) /\
    exists o w',
      run_thinking_budget_sample fuel u B (init_world m now) = (o, w') /\
      calls w' = (calls w1 ++ [final_call accumulated response])%list /\
      match prompt_plus_text response with
      | Err e => o = Raised e /\ stdout w' = stdout w1 /\ files w' = []
      | Ok total_content =>
          let s := final_summary (count_token (build_input u)) l total_content in
          o = Returned tt /\
          stdout w' = (stdout w1 ++ [TextLine total_content; SummaryLine s])%list /\
          files w' = [ {| file_timestamp := now;
                          file_content := total_content;
                          file_summary := s |} ]
      end.
Proof.
  intros Hloop.
  destruct (loop_from_init _ _ _ _ _ _ _ Hloop) as (Hrep & Hk & Hf & _).
  destruct (replay_returned _ _ _ _ _ _ _ _ Hrep) as (_ & _ & [total Hc] & _).
  apply count_total in Hc.
  destruct (generate (model w1) (total ++ close_marker) sampling_params)
    as [m' response] eqn:Hgen.
  exists total, m', response. split; [exact Hc|]. split; [exact Hgen|].
  rewrite run_eq, Hloop, finish_eq, Hc, Hgen. cbn zeta.
  destruct (prompt_plus_text response) as [tc|e].
  - eexists _, _. split; [reflexivity|]. cbn. rewrite Hk, Hf. auto.
  - eexists _, _. split; [reflexivity|]. cbn. auto.
Qed.

(** A run that returns went through a loop that exited. *)
Lemma run_returned (fuel : nat) (B : Z) (u : string) (m : M) (now : Z) w' :
  run_thinking_budget_sample fuel u B (init_world m now) = (Returned tt, w') ->
  exists l outs w1 accumulated response total_content,
    while_true fuel B (loop_init (build_input u)) (init_world m now)
      = (Returned (l, outs), w1) /\
    prompt_plus_text outs = Ok accumulated /\
    prompt_plus_text response = Ok total_content /\
    calls w' = (calls w1 ++ [final_call accumulated response])%list /\
    let s := final_summary (count_token (build_input u)) l total_content in
    stdout w' = (stdout w1 ++ [TextLine total_content; SummaryLine s])%list /\
    files w' = [ {| file_timestamp := now;
                    file_content := total_content;
                    file_summary := s |} ].
Proof.
  intros Hrun.
  destruct (while_true fuel B (loop_init (build_input u)) (init_world m now))
    as [[[l outs]|e|] w1] eqn:Hloop;
    try (rewrite run_eq, Hloop in Hrun; discriminate).
  destruct (run_after_loop _ _ _ _ _ _ _ _ Hloop)
    as (acc & m' & response & Hacc & Hgen & o & w'' & Hrun' & Hcalls & Hfin).
  rewrite Hrun in Hrun'. inversion Hrun'; subst o w''; clear Hrun'.
  destruct (prompt_plus_text response) as [tc|e] eqn:Hresp.
  - destruct Hfin as (_ & Hs & Hf).
    exists l, outs, w1, acc, response, tc. auto 10.
  - destruct Hfin as [Hfin _]. discriminate.
Qed.

End Claims.

(** ** Rounding up *)

Definition ceil_div (a b : Z) : Z := (a + b - 1) / b.


(** ** Properties of the script *)

Section LoopTheorems.

Context {M : Type} {llm : LLM M} {tok : Tokenizer}.


(** C3 (as amended).  When the loop exits, [think_token_count] is strictly
    greater than the budget: the break is taken on the first round whose
    measured count exceeds it, and that count is what the round's line
    reports.  The thinking-token number of the summary printed after the loop
    is another quantity, [count_token] of the text between the last
    [<think>] and the next [</think>] of the final transcript. *)
Theorem exit_count_exceeds_budget (m : M) (now : Z) (u : string) (B : Z)
  (fuel : nat) l outs w1 :
  while_true fuel B (loop_init (build_input u)) (init_world m now)
    = (Returned (l, outs), w1) ->
  B < think_token_count l /\
  (exists total,
      count_thinking_token outs = Ok (total, think_token_count l)) /\
  (exists earlier,
      stdout w1 = (earlier ++ [RoundLine (iteration_count l)
                                         (think_token_count l)])%list /\
      Forall (fun line => exists n, line_count line = Some n /\ n <= B)
             earlier) /\
  (forall w',
      run_thinking_budget_sample fuel u B (init_world m now)
        = (Returned tt, w') ->
      exists total_content s,
        stdout w' = (stdout w1 ++ [TextLine total_content; SummaryLine s])%list /\
        sum_thinking_tokens s
          = count_token (thinking_content_of total_content)).
Proof.
  intros Hloop.
  destruct (loop_from_init _ _ _ _ _ _ _ Hloop) as (Hrep & _).
  destruct (replay_returned _ _ _ _ _ _ _ _ Hrep)
    as (Hb & _ & Hc & cs0 & c & ls0 & _ & _ & _ & Hls & _ & Hall).
  split; [exact Hb|]. split; [exact Hc|]. split.
  - exists ls0. auto.
  - intros w' Hrun.
    destruct (run_returned _ _ _ _ _ _ Hrun)
      as (l2 & outs2 & w2 & acc & resp & tc & Hloop2 & _ & _ & _ & Hs & _).
    rewrite Hloop in Hloop2. inversion Hloop2; subst.
    exists tc, (final_summary (count_token (build_input u)) l2 tc).
    split; [exact Hs|reflexivity].
Qed.

(** C6.  If the first generation call already measures more thinking tokens
    than the budget, the loop body executes exactly once: one in-loop call,
    one round line, and the iteration counter still 0.  (The first call is
    issued with the parameters the constructor built for the whole budget.) *)
Theorem first_call_over_budget (m : M) (now : Z) (u : string) (B : Z)
  (fuel : nat) params m' outs total n :
  wait_sampling_params B 0 = Ok params ->
  generate m (build_input u) params = (m', outs) ->
  count_thinking_token outs = Ok (total, n) ->
  B < n ->
  exists l w1,
    while_true (S fuel) B (loop_init (build_input u)) (init_world m now)
      = (Returned (l, outs), w1) /\
    calls w1 = [ {| call_input := build_input u;
                    call_params := params;
                    call_response := outs |} ] /\
    max_tokens params = B /\
    stdout w1 = [RoundLine 0 n] /\
    think_token_count l = n /\ iteration_count l = 0.
Proof.
  intros Hparams Hgen Hcount Hn.
  rewrite while_true_S, loop_body_eq. cbn [model init_world loop_init
    input_text think_token_count].
  rewrite Hparams, Hgen. cbn zeta. rewrite Hcount.
  apply Z.gtb_lt in Hn. rewrite Hn.
  apply wait_sampling_params_ok in Hparams. destruct Hparams as (_ & Hm & _).
  eexists _, _. split; [reflexivity|]. cbn. repeat split; auto. lia.
Qed.

(** What [caps_follow] says call by call. *)
Lemma caps_follow_each (B : Z) :
  forall cs count0,
    caps_follow B count0 cs ->
    (forall c rest, cs = c :: rest ->
       max_tokens (call_params c) = B - count0) /\
    (forall before c c' rest total count,
       cs = (before ++ c :: c' :: rest)%list ->
       count_thinking_token (call_response c) = Ok (total, count) ->
       max_tokens (call_params c') = B - count) /\
    Forall (fun c =>
              stop (call_params c) = Some "</think>" /\
              skip_special_tokens (call_params c) = false) cs.
Proof.
  induction cs as [|a cs IH]; intros count0 Hcaps.
  - split; [|split]; [discriminate | | constructor].
    intros [|x before] c c' rest total count E; discriminate.
  - destruct Hcaps as (Hm & Hs & Hk & Hrest).
    split; [|split].
    + intros c rest E. inversion E; subst. exact Hm.
    + intros before c c' rest total count E Hcount.
      destruct before as [|x before]; cbn in E; inversion E; subst.
      * rewrite Hcount in Hrest.
        destruct (IH count Hrest) as (Hfirst & _).
        apply (Hfirst c' rest eq_refl).
      * destruct (count_thinking_token (call_response x)) as [[t n]|e].
        -- destruct (IH n Hrest) as (_ & Hnext & _).
           apply (Hnext before c c' rest total count eq_refl Hcount).
        -- destruct before; discriminate.
    + constructor; [auto|].
      destruct (count_thinking_token (call_response a)) as [[t n]|e].
      * apply (IH n Hrest).
      * subst cs. constructor.
Qed.

(** C8.  Every generation call issued inside the loop has
    [max_tokens = thinking_budget - think_token_count], where the count is
    the one measured on the previous round's response (0 on the first
    round, so the first cap is the budget), stops at the closing reasoning
    marker and keeps special tokens in the text.  This holds however the run
    ends. *)
Theorem loop_calls_use_remaining_budget (m : M) (now : Z) (u : string)
  (B : Z) (fuel : nat) :
  let w' := snd (while_true fuel B (loop_init (build_input u))
                   (init_world m now)) in
  caps_follow B 0 (calls w') /\
  (forall c rest, calls w' = c :: rest ->
     max_tokens (call_params c) = B) /\
  (forall before c c' rest total count,
     calls w' = (before ++ c :: c' :: rest)%list ->
     count_thinking_token (call_response c) = Ok (total, count) ->
     max_tokens (call_params c') = B - count) /\
  Forall (fun c =>
            stop (call_params c) = Some "</think>" /\
            skip_special_tokens (call_params c) = false)
         (calls w').
Proof.
  destruct (while_true fuel B (loop_init (build_input u)) (init_world m now))
    as [r w'] eqn:Hrun. cbn [snd].
  destruct (loop_from_init _ _ _ _ _ _ _ Hrun) as (Hrep & _).
  pose proof (replay_caps_follow _ _ _ _ _ _ _ Hrep) as Hcaps.
  cbn [think_token_count loop_init] in Hcaps.
  destruct (caps_follow_each B _ _ Hcaps) as (Hfirst & Hnext & Hall).
  split; [exact Hcaps|]. split; [|split; [exact Hnext | exact Hall]].
  intros c rest E. rewrite (Hfirst c rest E). lia.
Qed.

End LoopTheorems.

Section AfterLoopTheorems.

Context {M : Type} {llm : LLM M} {tok : Tokenizer}.

(** C5 (as amended).  When the loop exits, the function issues exactly one
    further generation call.  Its input is the accumulated text (prompt plus
    continuation of the last in-loop response) followed by the
    reasoning-close marker; its parameters are the fixed [sampling_params]:
    a cap of 4096 tokens and no stop marker.  No in-loop cap exceeds the
    budget, so the final cap is larger than all of them when the budget is
    below 4096. *)
Theorem one_final_call_after_loop (m : M) (now : Z) (u : string) (B : Z)
  (fuel : nat) l outs w1 :
  while_true fuel B (loop_init (build_input u)) (init_world m now)
    = (Returned (l, outs), w1) ->
  exists o w' accumulated final,
    run_thinking_budget_sample fuel u B (init_world m now) = (o, w') /\
    calls w' = (calls w1 ++ [final])%list /\
    (exists before last_call,
        calls w1 = (before ++ [last_call])%list /\
        call_response last_call = outs) /\
    prompt_plus_text outs = Ok accumulated /\
    call_input final = accumulated ++ close_marker /\
    call_params final = sampling_params /\
    max_tokens (call_params final) = 4096 /\
    stop (call_params final) = None /\
    Forall (fun c => max_tokens (call_params c) <= B) (calls w1) /\
    (B < 4096 ->
     Forall (fun c => max_tokens (call_params c)
                      < max_tokens (call_params final)) (calls w1)).
Proof.
  intros Hloop.
  destruct (run_after_loop _ _ _ _ _ _ _ _ Hloop)
    as (acc & m' & response & Hacc & Hgen & o & w' & Hrun & Hcalls & _).
  destruct (loop_from_init _ _ _ _ _ _ _ Hloop) as (Hrep & _).
  destruct (replay_returned _ _ _ _ _ _ _ _ Hrep)
    as (_ & _ & _ & cs0 & c & ls0 & Hcs & Hresp & _).
  pose proof (replay_caps_range _ _ _ _ _ _ _ Hrep ltac:(cbn; lia)) as Hrange.
  assert (Hupper : Forall (fun c => max_tokens (call_params c) <= B)
                          (calls w1)).
  { eapply Forall_impl; [|exact Hrange]. cbn. intros c' Hc'. lia. }
  exists o, w', acc, (final_call acc response).
  repeat split; auto.
  - exists cs0, c. auto.
  - intros HB. eapply Forall_impl; [|exact Hupper].
    cbn. intros c' Hc'. lia.
Qed.

(** C7.  When the loop exits, the input of the final generation call ends
    with the forced reasoning-close marker, the closing tag between two
    newlines. *)
Theorem final_input_ends_with_close_marker (m : M) (now : Z) (u : string)
  (B : Z) (fuel : nat) l outs w1 :
  while_true fuel B (loop_init (build_input u)) (init_world m now)
    = (Returned (l, outs), w1) ->
  exists o w' final,
    run_thinking_budget_sample fuel u B (init_world m now) = (o, w') /\
    calls w' = (calls w1 ++ [final])%list /\
    ends_with (call_input final) close_marker /\
    close_marker = nl ++ think_close ++ nl.
Proof.
  intros Hloop.
  destruct (run_after_loop _ _ _ _ _ _ _ _ Hloop)
    as (acc & m' & response & Hacc & Hgen & o & w' & Hrun & Hcalls & _).
  exists o, w', (final_call acc response).
  repeat split; auto.
  exists acc. reflexivity.
Qed.

(** C10.  The iteration count of the diagnostic summary is the number of
    loop-body executions minus one: the counter starts at 0 and is
    incremented only on the rounds that continue, so a run whose first call
    already exceeds the budget reports 0. *)
Theorem reported_iterations_one_less_than_rounds (m : M) (now : Z)
  (u : string) (B : Z) (fuel : nat) w' :
  run_thinking_budget_sample fuel u B (init_world m now) = (Returned tt, w') ->
  exists l outs w1 total_content s,
    while_true fuel B (loop_init (build_input u)) (init_world m now)
      = (Returned (l, outs), w1) /\
    List.length (stdout w1) = List.length (calls w1) /\
    (1 <= List.length (calls w1))%nat /\
    iteration_count l = Z.of_nat (List.length (calls w1)) - 1 /\
    stdout w' = (stdout w1 ++ [TextLine total_content; SummaryLine s])%list /\
    files w' = [ {| file_timestamp := now; file_content := total_content;
                    file_summary := s |} ] /\
    sum_iterations s = Z.of_nat (List.length (calls w1)) - 1 /\
    (List.length (calls w1) = 1%nat -> sum_iterations s = 0).
Proof.
  intros Hrun.
  destruct (run_returned _ _ _ _ _ _ Hrun)
    as (l & outs & w1 & acc & resp & tc & Hloop & _ & _ & _ & Hs & Hf).
  destruct (loop_from_init _ _ _ _ _ _ _ Hloop) as (Hrep & _).
  destruct (replay_returned _ _ _ _ _ _ _ _ Hrep)
    as (_ & Hit & _ & cs0 & c & ls0 & Hcs & _ & _ & Hls & Hlen & _).
  cbn in Hit.
  assert (Hn : (1 <= List.length (calls w1))%nat)
    by (rewrite Hcs, length_app; cbn; lia).
  exists l, outs, w1, tc, (final_summary (count_token (build_input u)) l tc).
  repeat split; auto.
  - rewrite Hcs, Hls, !length_app. cbn. lia.
  - cbn. intros H1. lia.
Qed.

End AfterLoopTheorems.

(** C2.  The budget alone does not end the loop, and nothing else bounds it:
    whenever the empty thinking segment counts fewer tokens than the budget
    there is a sequence of model responses (each one re-opens the reasoning
    segment, so every measured count stays below the budget) under which the
    loop is still running after any number of rounds. *)
Theorem loop_can_run_forever (tok : Tokenizer) (B : Z) :
  count_token EmptyString < B ->
  exists script : nat -> list RequestOutput,
    forall (u : string) (now : Z) (fuel : nat),
    exists w',
      while_true (llm := Mock.SeqLLM script) fuel B
        (loop_init (build_input u)) (init_world 0%nat now) = (OutOfFuel, w') /\
      List.length (calls w') = fuel /\
      Forall (fun line => exists n, line_count line = Some n /\ n <= B)
             (stdout w').
Proof.
  intros HB. exists (fun _ => Mock.reopen). intros u now fuel.
  assert (Hnn : 0 <= count_token EmptyString) by (unfold count_token; lia).
  assert (Hcount : count_thinking_token Mock.reopen
                   = Ok (think_open_nl, count_token EmptyString))
    by reflexivity.
  assert (Hgen : forall fuel l (w : World nat),
             think_token_count l < B ->
             exists w',
               while_true (llm := Mock.SeqLLM (fun _ => Mock.reopen))
                 fuel B l w = (OutOfFuel, w') /\
               exists cs ls,
                 calls w' = (calls w ++ cs)%list /\
                 stdout w' = (stdout w ++ ls)%list /\
                 List.length cs = fuel /\
                 Forall (fun line =>
                           exists n, line_count line = Some n /\ n <= B) ls).
  { clear fuel. induction fuel as [|fuel IH]; intros l w Hl.
    - exists w. split; [reflexivity|]. exists [], [].
      rewrite !app_nil_r. auto.
    - rewrite while_true_S, loop_body_eq.
      destruct (wait_sampling_params_accepts B (think_token_count l)
                  ltac:(lia)) as [params ->].
      cbn [generate Mock.SeqLLM]. cbn zeta. rewrite Hcount.
      destruct (Z.gtb_spec (count_token EmptyString) B) as [Hgt|_]; [lia|].
      destruct (IH (continue_locals l think_open_nl (count_token EmptyString))
                  (log_line (log_call w (S (model w))
                                      (loop_call l params Mock.reopen))
                            (RoundLine (iteration_count l)
                                       (count_token EmptyString)))
                  HB)
        as (w' & -> & cs & ls & Hc & Hs & Hlen & Hall).
      exists w'. split; [reflexivity|].
      exists (loop_call l params Mock.reopen :: cs),
        (RoundLine (iteration_count l) (count_token EmptyString) :: ls).
      cbn in Hc, Hs. rewrite <- app_assoc in Hc, Hs.
      repeat split; auto.
      + cbn. lia.
      + constructor; [|exact Hall]. eexists. split; [reflexivity|lia]. }
  destruct (Hgen fuel (loop_init (build_input u)) (init_world 0%nat now))
    as (w' & Hrun & cs & ls & Hc & Hs & Hlen & Hall).
  { cbn. lia. }
  exists w'. cbn in Hc, Hs. rewrite Hc, Hs. auto.
Qed.




(** C9.  Two runs with the same tokenizer, user input and budget that
    received identical model responses print the same lines (the round
    lines, the final transcript and the summary with its iteration count),
    issue the same calls and write the same transcript and summary to their
    files, whatever the engines, their states, the clocks and the fuel. *)
Theorem same_responses_same_report {M1 M2 : Type} (llm1 : LLM M1)
  (llm2 : LLM M2) (tok : Tokenizer) (m1 : M1) (m2 : M2) (now1 now2 : Z)
  (u : string) (B : Z) (fuel1 fuel2 : nat) w1 w2 :
  run_thinking_budget_sample (llm := llm1) fuel1 u B (init_world m1 now1)
    = (Returned tt, w1) ->
  run_thinking_budget_sample (llm := llm2) fuel2 u B (init_world m2 now2)
    = (Returned tt, w2) ->
  map call_response (calls w1) = map call_response (calls w2) ->
  calls w1 = calls w2 /\
  stdout w1 = stdout w2 /\
  map file_content (files w1) = map file_content (files w2) /\
  map file_summary (files w1) = map file_summary (files w2) /\
  exists rounds total_content s,
    stdout w1 = (rounds ++ [TextLine total_content; SummaryLine s])%list /\
    Z.of_nat (List.length rounds) = sum_iterations s + 1.
Proof.
  intros Hrun1 Hrun2 Hresp.
  destruct (run_returned _ _ _ _ _ _ Hrun1)
    as (l1 & outs1 & v1 & acc1 & resp1 & tc1
        & Hloop1 & Hacc1 & Htc1 & Hc1 & Hs1 & Hf1).
  destruct (run_returned _ _ _ _ _ _ Hrun2)
    as (l2 & outs2 & v2 & acc2 & resp2 & tc2
        & Hloop2 & Hacc2 & Htc2 & Hc2 & Hs2 & Hf2).
  destruct (loop_from_init _ _ _ _ _ _ _ Hloop1) as (Hrep1 & _).
  destruct (loop_from_init _ _ _ _ _ _ _ Hloop2) as (Hrep2 & _).
  rewrite Hc1, Hc2, !map_app in Hresp. cbn in Hresp.
  apply app_inj_tail in Hresp. destruct Hresp as [Hloopresp Hfinal].
  rewrite Hloopresp in Hrep1.
  destruct (replay_returned_same _ _ _ _ _ _ _ _ _ _ _ Hrep1 Hrep2)
    as (Hcs & Hls & Hx).
  inversion Hx as [[Hl Houts]]. subst resp2 outs2 l2.
  rewrite Hacc1 in Hacc2. inversion Hacc2; subst acc2.
  rewrite Htc1 in Htc2. inversion Htc2; subst tc2.
  cbn zeta in Hs1, Hs2, Hf1, Hf2.
  rewrite Hc1, Hc2, Hs1, Hs2, Hf1, Hf2, Hcs, Hls.
  repeat split.
  exists (stdout v2), tc1, (final_summary (count_token (build_input u)) l1 tc1).
  split; [reflexivity|].
  destruct (replay_returned _ _ _ _ _ _ _ _ Hrep2)
    as (_ & Hit & _ & cs0 & c & ls0 & Hcs0 & _ & _ & Hls0 & Hlen & _).
  cbn in Hit |- *.
  rewrite Hls0, Hit, Hcs0, !length_app. cbn [List.length]. lia.
Qed.

(** ** Concrete runs *)

Module Runs.

Import Mock.

Definition question : string := "2+2?".

(** The loop and the whole function on an echoing engine that follows
    [script], with the character tokenizer. *)
Abbreviation echo_loop script fuel B :=
  (while_true (llm := EchoLLM script) (tok := CharTokenizer) fuel B
     (loop_init (build_input (tok := CharTokenizer) question))
   (init_world 0%nat 7)).

Abbreviation echo_run script fuel B :=
  (run_thinking_budget_sample (llm := EchoLLM script) (tok := CharTokenizer)
     fuel question B (init_world 0%nat 7)).

(** An engine that plays back the responses recorded in a log. *)
Definition playback (log : list Call) : nat -> list RequestOutput :=
  fun k => nth k (map call_response log) [].

Lemma pair_of_fst {A B : Type} (p : A * B) (a : A) :
  fst p = a -> p = (a, snd p).
Proof. intros <-. apply surjective_pairing. Qed.

(** A run of the echoing engine, and a run of an engine that plays back
    the responses of the first, with more fuel and another clock. *)
Abbreviation first_run := (echo_run (steady 40) 5%nat 100).

Abbreviation second_run :=
  (run_thinking_budget_sample
     (llm := SeqLLM (playback (calls (snd first_run))))
     (tok := CharTokenizer) 9 question 100 (init_world 0%nat 8)).

End Runs.


(** Budget 80, 40 tokens per call: two rounds, 80 / 40 rounded up; the second
    count lands on the budget and the third round is refused its
    parameters. *)
Example steady_model_lands_on_budget :
  fst (Runs.echo_loop (Mock.steady 40) 5 80) = Raised ValueError /\
  stdout (snd (Runs.echo_loop (Mock.steady 40) 5 80))
    = [RoundLine 0 40; RoundLine 1 80] /\
  map (fun c => max_tokens (call_params c))
      (calls (snd (Runs.echo_loop (Mock.steady 40) 5 80))) = [80; 40] /\
  ceil_div 80 40 = 2.
Proof. repeat split; vm_compute; reflexivity. Qed.

(** The re-opening model under the character tokenizer and budget 100. *)
Lemma loop_can_run_forever_witness :
  exists script : nat -> list RequestOutput,
    forall (u : string) (now : Z) (fuel : nat),
    exists w',
      while_true (llm := Mock.SeqLLM script) (tok := Mock.CharTokenizer)
        fuel 100 (loop_init (build_input (tok := Mock.CharTokenizer) u))
        (init_world 0%nat now) = (OutOfFuel, w') /\
      List.length (calls w') = fuel /\
      Forall (fun line => exists n, line_count line = Some n /\ n <= 100)
             (stdout w').
Proof.
  apply (loop_can_run_forever Mock.CharTokenizer 100).
  vm_compute. reflexivity.
Defined.

(** A model that reasons for 31 tokens against a budget of 20 leaves the loop
    with count 31. *)
Lemma exit_count_exceeds_budget_witness :
  exists l outs w1,
    Runs.echo_loop Mock.quoting 3 20 = (Returned (l, outs), w1) /\
    20 < think_token_count l /\
    think_token_count l = 31.
Proof.
  destruct (Runs.echo_loop Mock.quoting 3 20) as [[[l outs]|e|] w1] eqn:Hloop;
    try (vm_compute in Hloop; discriminate).
  exists l, outs, w1. split; [reflexivity|].
  destruct (exit_count_exceeds_budget (llm := Mock.EchoLLM Mock.quoting)
              (tok := Mock.CharTokenizer) 0%nat 7 Runs.question 20 3
              l outs w1 Hloop) as (Hb & _).
  split; [exact Hb|].
  vm_compute in Hloop. inversion Hloop. reflexivity.
Defined.

(** C3, as stated, fails for the count the summary reports: the same run
    leaves the loop with [think_token_count = 31 > 20], and its summary
    reports 17 thinking tokens, the text after the [<think>] the reasoning
    itself mentions. *)
Lemma summary_thinking_count_counterexample :
  exists l outs w1 w' total_content s,
    Runs.echo_loop Mock.quoting 3 20 = (Returned (l, outs), w1) /\
    think_token_count l = 31 /\
    Runs.echo_run Mock.quoting 3 20 = (Returned tt, w') /\
    stdout w' = [RoundLine 0 31; TextLine total_content; SummaryLine s] /\
    sum_thinking_tokens s = 17 /\
    ~ 20 < sum_thinking_tokens s.
Proof.
  do 6 eexists.
  split; [vm_compute; reflexivity|].
  split; [reflexivity|].
  split; [vm_compute; reflexivity|].
  split; [reflexivity|].
  split; [reflexivity|].
  cbn. lia.
Qed.



(** Budget 100: the final call is the fourth, with cap 4096 and no stop. *)
Lemma one_final_call_after_loop_witness :
  exists l outs w1 o w' final,
    Runs.echo_loop (Mock.steady 40) 5 100 = (Returned (l, outs), w1) /\
    Runs.echo_run (Mock.steady 40) 5 100 = (o, w') /\
    calls w' = (calls w1 ++ [final])%list /\
    List.length (calls w') = 4%nat /\
    max_tokens (call_params final) = 4096 /\
    stop (call_params final) = None /\
    Forall (fun c => max_tokens (call_params c)
                     < max_tokens (call_params final)) (calls w1).
Proof.
  destruct (Runs.echo_loop (Mock.steady 40) 5 100) as [[[l outs]|e|] w1]
    eqn:Hloop; try (vm_compute in Hloop; discriminate).
  destruct (one_final_call_after_loop (llm := Mock.EchoLLM (Mock.steady 40))
              (tok := Mock.CharTokenizer) 0%nat 7 Runs.question 100 5
              l outs w1 Hloop)
    as (o & w' & acc & final & Hrun & Hcalls & _ & _ & _ & _ & Hcap & Hstop
        & _ & Hlt).
  exists l, outs, w1, o, w', final.
  repeat split; auto.
  - rewrite Hcalls, length_app.
    vm_compute in Hloop. inversion Hloop. reflexivity.
  - apply Hlt. lia.
Defined.

(** C5, as stated, fails for the cap: with the budget the script itself
    passes, 32768, and a model that stays within its caps, the in-loop calls
    are capped at 32768 and 8 tokens and the final call at 4096, which is
    neither larger than the first cap nor unbounded. *)
Lemma final_cap_not_larger_counterexample :
  fst (Runs.echo_run Mock.filling 3 32768) = Returned tt /\
  stdout (snd (Runs.echo_loop Mock.filling 3 32768))
    = [RoundLine 0 32760; RoundLine 1 32775] /\
  map (fun c => max_tokens (call_params c))
      (calls (snd (Runs.echo_loop Mock.filling 3 32768))) = [32768; 8] /\
  map (fun c => max_tokens (call_params c))
      (calls (snd (Runs.echo_run Mock.filling 3 32768)))
    = [32768; 8; 4096] /\
  ~ 32768 < 4096.
Proof.
  split; [vm_compute; reflexivity|].
  split; [vm_compute; reflexivity|].
  split; [vm_compute; reflexivity|].
  split; [vm_compute; reflexivity|].
  lia.
Qed.

(** A first response of 50 thinking tokens against a budget of 20. *)
Lemma first_call_over_budget_witness :
  exists l outs w1,
    Runs.echo_loop (Mock.burst 50) 4 20 = (Returned (l, outs), w1) /\
    List.length (calls w1) = 1%nat /\
    map (fun c => max_tokens (call_params c)) (calls w1) = [20] /\
    stdout w1 = [RoundLine 0 50] /\
    iteration_count l = 0.
Proof.
  destruct (wait_sampling_params_accepts 20 0 ltac:(lia)) as [params Hp].
  destruct (first_call_over_budget (llm := Mock.EchoLLM (Mock.burst 50))
              (tok := Mock.CharTokenizer) 0%nat 7 Runs.question 20 3%nat
              params 1%nat
              [ {| prompt := build_input (tok := Mock.CharTokenizer)
                               Runs.question;
                   outputs := [ {| text := Mock.burst 50 0 |} ] |} ]
              (build_input (tok := Mock.CharTokenizer) Runs.question
                 ++ Mock.burst 50 0)
              50 Hp)
    as (l & w1 & Hloop & Hcalls & Hcap & Hlines & _ & Hit).
  - reflexivity.
  - vm_compute. reflexivity.
  - lia.
  - eexists l, _, w1. split; [exact Hloop|].
    rewrite Hcalls, Hlines. cbn. rewrite Hcap. auto.
Defined.

(** Budget 100: the input of the fourth call ends with the close marker. *)
Lemma final_input_ends_with_close_marker_witness :
  exists l outs w1 o w' final,
    Runs.echo_loop (Mock.steady 40) 5 100 = (Returned (l, outs), w1) /\
    Runs.echo_run (Mock.steady 40) 5 100 = (o, w') /\
    calls w' = (calls w1 ++ [final])%list /\
    ends_with (call_input final) close_marker.
Proof.
  destruct (Runs.echo_loop (Mock.steady 40) 5 100) as [[[l outs]|e|] w1]
    eqn:Hloop; try (vm_compute in Hloop; discriminate).
  destruct (final_input_ends_with_close_marker
              (llm := Mock.EchoLLM (Mock.steady 40))
              (tok := Mock.CharTokenizer) 0%nat 7 Runs.question 100 5
              l outs w1 Hloop)
    as (o & w' & final & Hrun & Hcalls & Hends & _).
  exists l, outs, w1, o, w', final. auto.
Defined.

(** The echoing engine with fuel 5, against an engine that plays back the
    responses the first one gave, with fuel 9 and another clock. *)
Lemma same_responses_same_report_witness :
  fst Runs.first_run = Returned tt /\
  fst Runs.second_run = Returned tt /\
  calls (snd Runs.first_run) = calls (snd Runs.second_run) /\
  stdout (snd Runs.first_run) = stdout (snd Runs.second_run) /\
  exists rounds total_content s,
    stdout (snd Runs.first_run)
      = (rounds ++ [TextLine total_content; SummaryLine s])%list /\
    Z.of_nat (List.length rounds) = sum_iterations s + 1.
Proof.
  assert (H1 : fst Runs.first_run = Returned tt)
    by (vm_compute; reflexivity).
  assert (H2 : fst Runs.second_run = Returned tt)
    by (vm_compute; reflexivity).
  split; [exact H1|]. split; [exact H2|].
  assert (E1 : run_thinking_budget_sample (llm := Mock.EchoLLM (Mock.steady 40))
                 (tok := Mock.CharTokenizer) 5 Runs.question 100
                 (init_world 0%nat 7) = (Returned tt, snd Runs.first_run)).
  { apply Runs.pair_of_fst, H1. }
  assert (E2 : run_thinking_budget_sample
                 (llm := Mock.SeqLLM
                           (Runs.playback (calls (snd Runs.first_run))))
                 (tok := Mock.CharTokenizer) 9 Runs.question 100
                 (init_world 0%nat 8) = (Returned tt, snd Runs.second_run)).
  { apply Runs.pair_of_fst, H2. }
  assert (E3 : map call_response (calls (snd Runs.first_run))
               = map call_response (calls (snd Runs.second_run)))
    by (vm_compute; reflexivity).
  destruct (same_responses_same_report _ _ _ _ _ _ _ _ _ _ _ _ _ E1 E2 E3)
    as (Hc & Hs & _ & _ & Hex).
  auto.
Defined.

(** A first response over the budget: one round, and the summary reports 0
    iterations. *)
Lemma reported_iterations_one_less_than_rounds_witness :
  exists w' l outs w1 total_content s,
    Runs.echo_run (Mock.burst 50) 4 20 = (Returned tt, w') /\
    Runs.echo_loop (Mock.burst 50) 4 20 = (Returned (l, outs), w1) /\
    List.length (calls w1) = 1%nat /\
    stdout w' = [RoundLine 0 50; TextLine total_content; SummaryLine s] /\
    sum_iterations s = 0.
Proof.
  destruct (Runs.echo_run (Mock.burst 50) 4 20) as [o w'] eqn:Hrun.
  assert (Ho : o = Returned tt)
    by (apply (f_equal fst) in Hrun; vm_compute in Hrun; congruence).
  subst o.
  destruct (reported_iterations_one_less_than_rounds
              (llm := Mock.EchoLLM (Mock.burst 50))
              (tok := Mock.CharTokenizer) 0%nat 7 Runs.question 20 4 w' Hrun)
    as (l & outs & w1 & tc & s & Hloop & _ & _ & _ & Hlines & _ & _ & Hzero).
  assert (Hw1 : List.length (calls w1) = 1%nat /\
               stdout w1 = [RoundLine 0 50]).
  { pose proof Hloop as Hv. vm_compute in Hv. inversion Hv.
    split; reflexivity. }
  destruct Hw1 as [Hone Hround].
  exists w', l, outs, w1, tc, s.
  split; [reflexivity|]. split; [exact Hloop|]. split; [exact Hone|].
  split; [rewrite Hlines, Hround; reflexivity|].
  apply Hzero. exact Hone.
Defined.


(** * More of the script

    The rest of this file covers what the properties above leave out: the
    text operations behind [count_thinking_token] and the thinking content of
    the summary, how the rounds of the loop chain their inputs, what a run
    leaves behind when it does not return, and the plain sampler
    [run_sample]. *)

(** ** Text *)

(** [sep in s] *)
Definition contains (sep s : string) : Prop :=
  exists before after, s = before ++ sep ++ after.

(** [s[n:]] *)
Fixpoint drop (n : nat) (s : string) : string :=
  match n, s with
  | O, _ => s
  | S _, EmptyString => EmptyString
  | S k, String _ s' => drop k s'
  end.

(** [sep.join(pieces)] is [String.concat sep pieces]. *)
Definition join (sep : string) (pieces : list string) : string :=
  String.concat sep pieces.

(** The continuation of a response: [outputs[0].outputs[0].text], empty when
    there is none. *)
Definition response_text (response : list RequestOutput) : string :=
  match response with
  | o :: _ =>
      match outputs o with
      | c :: _ => text c
      | [] => EmptyString
      end
  | [] => EmptyString
  end.

(** An engine response that echoes the prompt it was given, as the real
    engine does, and carries a continuation. *)
Definition echoes (c : Call) : Prop :=
  exists t rest_outputs rest,
    call_response c = {| prompt := call_input c;
                         outputs := t :: rest_outputs |} :: rest.

(** The inputs of the in-loop calls: the first is [input], each later one is
    the prompt plus text of the response before it, followed by the wait
    marker. *)
Fixpoint inputs_follow (input : string) (cs : list Call) : Prop :=
  match cs with
  | [] => True
  | c :: rest =>
      call_input c = input /\
      match prompt_plus_text (call_response c) with
      | Ok total_token => inputs_follow (total_token ++ wait_marker) rest
      | Err _ => rest = []
      end
  end.

(** The iteration number a round line carries. *)
Definition line_iteration (l : Line) : option Z :=
  match l with
  | RoundLine i _ => Some i
  | _ => None
  end.

(** ** The plain sampler *)

(** What [run_sample] prints: the transcript, then the three counts. *)
Inductive SampleLine :=
| SampleText (total_content : string)                    (* line 104 *)
| SampleCounts (input_tokens thinking_tokens total_tokens : Z).  (* line 106 *)

(** [run_sample] touches the engine and the terminal only. *)
Record SampleWorld (M : Type) := {
  sample_model : M;
  sample_calls : list Call;
  sample_stdout : list SampleLine
}.
Arguments sample_model {M} s.
Arguments sample_calls {M} s.
Arguments sample_stdout {M} s.

Definition sample_params : SamplingParams :=
  {| temperature := 0x1.6666666666666p-1%float;   (* 0.7 *)
     max_tokens := 32768;
     stop := None;
     skip_special_tokens := false |}.

(** Lines 87-106, from an engine in state [m] and an empty terminal. *)
Definition run_sample {M : Type} {llm : LLM M} {tok : Tokenizer}
  (user_input : string) (m : M) : Outcome unit * SampleWorld M :=
  let input_text := build_input user_input in
  let input_token_count := count_token input_text in
  let (m', final_outputs) := generate m input_text sample_params in
  let issued :=
    [ {| call_input := input_text; call_params := sample_params;
         call_response := final_outputs |} ] in
  match prompt_plus_text final_outputs with
  | Err e =>
      (Raised e,
       {| sample_model := m'; sample_calls := issued; sample_stdout := [] |})
  | Ok total_content =>
      let thinking_content := thinking_content_of total_content in
      (Returned tt,
       {| sample_model := m'; sample_calls := issued;
          sample_stdout :=
            [ SampleText total_content;
              SampleCounts input_token_count
                           (count_token thinking_content)
                           (count_token total_content) ] |})
  end.

(** ** Facts about text *)

Lemma append_nil_r (s : string) : s ++ EmptyString = s.
Proof. induction s as [|c s IH]; cbn; [reflexivity | now rewrite IH]. Qed.

Lemma append_assoc (a b c : string) : (a ++ b) ++ c = a ++ (b ++ c).
Proof. induction a as [|x a IH]; cbn; [reflexivity | now rewrite IH]. Qed.

Lemma append_eq_nil (a b : string) :
  a ++ b = EmptyString -> a = EmptyString /\ b = EmptyString.
Proof. destruct a; cbn; intros H; [auto | discriminate]. Qed.

Lemma prefix_iff (p s : string) :
  String.prefix p s = true <-> exists rest, s = p ++ rest.
Proof.
  revert s. induction p as [|a p IH]; intros s.
  - split; [intros _; exists s; reflexivity | intros _; destruct s; reflexivity].
  - destruct s as [|c s]; cbn.
    + split; [discriminate | intros [rest H]; discriminate].
    + destruct (ascii_dec a c) as [->|Hne].
      * rewrite IH. split; intros [rest H]; exists rest.
        -- now rewrite H.
        -- now injection H.
      * split; [discriminate|]. intros [rest H]. injection H as H1 _.
        congruence.
Qed.

Lemma prefix_drop (p s : string) :
  String.prefix p s = true ->
  p ++ drop (String.length p) s = s /\ (String.length p <= String.length s)%nat.
Proof.
  intros H. apply prefix_iff in H. destruct H as [rest ->]. clear.
  induction p as [|a p [IH1 IH2]]; cbn.
  - split; [reflexivity | lia].
  - split; [now rewrite IH1 | lia].
Qed.

(** An occurrence in [c s] starts at the first character or lies in [s]. *)
Lemma contains_cons (sep : string) (c : ascii) (s : string) :
  contains sep (String c s) ->
  String.prefix sep (String c s) = true \/ contains sep s.
Proof.
  intros (before & after & H). destruct before as [|x before]; cbn in H.
  - left. apply prefix_iff. exists after. exact H.
  - right. injection H as _ H. exists before, after. exact H.
Qed.

Lemma contains_inside (sep x left right : string) :
  contains sep x -> contains sep (left ++ x ++ right).
Proof.
  intros (before & after & ->). exists (left ++ before), (after ++ right).
  now rewrite !append_assoc.
Qed.

Lemma contains_nil (sep : string) :
  contains sep EmptyString -> sep = EmptyString.
Proof.
  intros (before & after & H). symmetry in H.
  apply append_eq_nil in H. destruct H as [_ H].
  apply append_eq_nil in H. apply H.
Qed.

Lemma split_from_not_nil (sep : string) (s : string) :
  forall k, split_from sep k s <> [].
Proof.
  induction s as [|c s IH]; intros k; cbn [split_from]; [discriminate|].
  destruct k as [|k]; [|apply IH].
  destruct (String.prefix sep (String c s)); [discriminate|].
  specialize (IH 0%nat). destruct (split_from sep 0 s); cbn; congruence.
Qed.

Lemma join_cons_head (sep : string) (c : ascii) (l : list string) :
  l <> [] -> join sep (cons_head c l) = String c (join sep l).
Proof.
  destruct l as [|x [|y l]]; cbn; intros H; congruence.
Qed.

Lemma join_cons (sep x : string) (l : list string) :
  l <> [] -> join sep (x :: l) = x ++ sep ++ join sep l.
Proof. destruct l; [congruence | reflexivity]. Qed.

Lemma join_snoc (sep x : string) (l : list string) :
  l <> [] -> join sep (l ++ [x]) = join sep l ++ sep ++ x.
Proof.
  induction l as [|y l IH]; [congruence|]. intros _.
  destruct l as [|z l].
  - reflexivity.
  - change ((y :: z :: l) ++ [x])%list with (y :: ((z :: l) ++ [x]))%list.
    rewrite join_cons by (destruct l; discriminate).
    rewrite IH by discriminate.
    rewrite (join_cons sep y (z :: l)) by discriminate.
    now rewrite !append_assoc.
Qed.

(** Joining the pieces back gives the text after the characters still to be
    skipped. *)
Lemma split_from_join (sep : string) :
  sep <> EmptyString ->
  forall s k, (k <= String.length s)%nat ->
    join sep (split_from sep k s) = drop k s.
Proof.
  intros Hsep. induction s as [|c s IH]; intros k Hk; cbn in Hk.
  - assert (k = 0%nat) by lia. subst. reflexivity.
  - destruct k as [|k]; cbn [split_from drop].
    + destruct (String.prefix sep (String c s)) eqn:Hp.
      * destruct sep as [|a sep]; [congruence|].
        cbn in Hp. destruct (ascii_dec a c) as [->|]; [|discriminate].
        apply prefix_drop in Hp. destruct Hp as [Hp Hlen].
        rewrite join_cons by apply split_from_not_nil.
        replace (String.length (String c sep) - 1)%nat
          with (String.length sep) by (cbn; lia).
        rewrite IH by exact Hlen. cbn. now rewrite Hp.
      * rewrite join_cons_head by apply split_from_not_nil.
        rewrite IH by lia. reflexivity.
    + apply IH. lia.
Qed.

(** The last piece holds no separator. *)
Lemma last_piece_clean (sep : string) :
  sep <> EmptyString ->
  forall s k, (k <= String.length s)%nat ->
    ~ contains sep (last_piece (split_from sep k s)).
Proof.
  intros Hsep. unfold last_piece.
  induction s as [|c s IH]; intros k Hk; cbn in Hk.
  - cbn. intros H. apply contains_nil in H. congruence.
  - destruct k as [|k]; cbn [split_from].
    + destruct (String.prefix sep (String c s)) eqn:Hp.
      * pose proof (split_from_not_nil sep s (String.length sep - 1)) as Hne.
        destruct (split_from sep (String.length sep - 1) s) as [|x l] eqn:E;
          [congruence|].
        change (last (EmptyString :: x :: l) EmptyString)
          with (last (x :: l) EmptyString).
        rewrite <- E. apply IH.
        destruct sep as [|a sep]; [congruence|]. cbn in Hp.
        destruct (ascii_dec a c); [|discriminate].
        apply prefix_drop in Hp. cbn. lia.
      * pose proof (split_from_join sep Hsep s 0 ltac:(lia)) as Hjoin.
        specialize (IH 0%nat ltac:(lia)).
        destruct (split_from sep 0 s) as [|x [|y l]] eqn:E.
        -- exfalso. exact (split_from_not_nil sep s 0 E).
        -- cbn in Hjoin, IH |- *. subst x. intros H.
           apply contains_cons in H. destruct H as [H|H]; [congruence|auto].
        -- exact IH.
    + apply IH. lia.
Qed.

(** The first piece holds no separator and starts the text. *)
Lemma first_piece_clean (sep : string) :
  sep <> EmptyString ->
  forall s,
    ~ contains sep (first_piece (split sep s)) /\
    exists rest, s = first_piece (split sep s) ++ rest.
Proof.
  intros Hsep. unfold first_piece, split.
  induction s as [|c s [IH1 [rest IH2]]]; cbn [split_from].
  - cbn. split; [|exists EmptyString; reflexivity].
    intros H. apply contains_nil in H. congruence.
  - destruct (String.prefix sep (String c s)) eqn:Hp.
    + cbn. split; [|exists (String c s); reflexivity].
      intros H. apply contains_nil in H. congruence.
    + pose proof (split_from_not_nil sep s 0) as Hne.
      destruct (split_from sep 0 s) as [|x l]; [congruence|].
      cbn in IH1, IH2 |- *. split.
      * intros H. apply contains_cons in H. destruct H as [H|H]; [|auto].
        apply prefix_iff in H. destruct H as [r H].
        assert (String.prefix sep (String c s) = true); [|congruence].
        apply prefix_iff. exists (r ++ rest).
        rewrite IH2, <- append_assoc, <- H. reflexivity.
      * exists rest. now rewrite IH2 at 1.
Qed.

(** A text with a separator in it splits into at least two pieces. *)
Lemma split_two_pieces (sep : string) :
  sep <> EmptyString ->
  forall s, contains sep s -> (2 <= List.length (split sep s))%nat.
Proof.
  intros Hsep. unfold split.
  induction s as [|c s IH]; intros H.
  - apply contains_nil in H. congruence.
  - cbn [split_from].
    destruct (String.prefix sep (String c s)) eqn:Hp.
    + pose proof (split_from_not_nil sep s (String.length sep - 1)).
      destruct (split_from sep (String.length sep - 1) s); [congruence|].
      cbn. lia.
    + apply contains_cons in H. destruct H as [H|H]; [congruence|].
      specialize (IH H). destruct (split_from sep 0 s); cbn in *; lia.
Qed.

(** ** Splitting and the thinking text *)

(** X1.  Splitting a text at a marker that is not empty and joining the
    pieces back with the marker gives the text again, and there is always at
    least one piece, so taking the first or the last never fails. *)
Theorem split_join_round_trip (sep s : string) :
  sep <> EmptyString ->
  join sep (split sep s) = s /\ split sep s <> [].
Proof.
  intros Hsep. split; [|apply split_from_not_nil].
  unfold split. rewrite split_from_join by (auto; lia). reflexivity.
Qed.

(** Where the last piece sits in the text. *)
Lemma last_piece_suffix (sep s : string) :
  sep <> EmptyString ->
  exists before,
    s = before ++ last_piece (split sep s) /\
    (before = EmptyString \/ ends_with before sep).
Proof.
  intros Hsep.
  pose proof (split_from_join sep Hsep s 0 ltac:(lia)) as Hjoin.
  pose proof (split_from_not_nil sep s 0) as Hne.
  fold (split sep s) in Hjoin, Hne. cbn [drop] in Hjoin.
  destruct (exists_last Hne) as (init & x & E).
  unfold last_piece. rewrite E, last_last. rewrite E in Hjoin.
  destruct init as [|y init].
  - exists EmptyString. cbn in Hjoin. split; [now rewrite Hjoin | now left].
  - rewrite join_snoc in Hjoin by discriminate.
    exists (join sep (y :: init) ++ sep). split.
    + now rewrite append_assoc.
    + right. exists (join sep (y :: init)). reflexivity.
Qed.

Section TextTheorems.

Context {tok : Tokenizer}.

(** X2.  The text whose tokens [count_thinking_token] counts is the end of
    prompt plus continuation: it holds no opening marker (tag and newline)
    itself, and what stands before it is either nothing or ends with that
    marker. *)
Theorem thinking_text_follows_last_marker (outs : list RequestOutput)
  (total : string) (n : Z) :
  count_thinking_token outs = Ok (total, n) ->
  exists before thinking,
    total = before ++ thinking /\
    n = count_token thinking /\
    ~ contains think_open_nl thinking /\
    (before = EmptyString \/ ends_with before think_open_nl).
Proof.
  unfold count_thinking_token.
  destruct (prompt_plus_text outs) as [t|e]; [|discriminate].
  intros H. inversion H; subst; clear H.
  assert (Hsep : think_open_nl <> EmptyString) by discriminate.
  destruct (last_piece_suffix think_open_nl total Hsep) as (before & E & Hb).
  exists before, (last_piece (split think_open_nl total)).
  repeat split; auto.
  apply last_piece_clean; [exact Hsep | lia].
Qed.

(** X3.  When prompt plus continuation holds no opening marker, the count is
    that of the whole text, prompt included. *)
Theorem no_marker_counts_whole_text (outs : list RequestOutput)
  (total : string) :
  prompt_plus_text outs = Ok total ->
  ~ contains think_open_nl total ->
  count_thinking_token outs = Ok (total, count_token total).
Proof.
  intros Htotal Hno. unfold count_thinking_token. rewrite Htotal.
  assert (Hsep : think_open_nl <> EmptyString) by discriminate.
  destruct (last_piece_suffix think_open_nl total Hsep)
    as (before & E & [->|[b ->]]).
  - change (total = last_piece (split think_open_nl total)) in E.
    rewrite <- E. reflexivity.
  - exfalso. apply Hno. rewrite E.
    exists b, (last_piece (split think_open_nl total)).
    now rewrite append_assoc.
Qed.

Lemma thinking_content_clean (total_content : string) :
  ~ contains think_open (thinking_content_of total_content) /\
  ~ contains think_close (thinking_content_of total_content) /\
  exists before after,
    total_content = before ++ thinking_content_of total_content ++ after.
Proof.
  assert (Ho : think_open <> EmptyString) by discriminate.
  assert (Hc : think_close <> EmptyString) by discriminate.
  unfold thinking_content_of.
  set (tail := last_piece (split think_open total_content)).
  destruct (first_piece_clean think_close Hc tail) as [Hclean [rest Hrest]].
  destruct (last_piece_suffix think_open total_content Ho) as (before & E & _).
  fold tail in E.
  split; [|split].
  - intros H.
    apply (last_piece_clean think_open Ho total_content 0 ltac:(lia)).
    fold (split think_open total_content). fold tail.
    rewrite Hrest.
    apply (contains_inside _ _ EmptyString rest) in H. exact H.
  - exact Hclean.
  - exists before, rest. rewrite E at 1. now rewrite Hrest at 1.
Qed.

(** X4.  The thinking content of the summary is a part of the transcript
    that holds neither the opening nor the closing tag. *)
Theorem thinking_content_has_no_tags (total_content : string) :
  ~ contains think_open (thinking_content_of total_content) /\
  ~ contains think_close (thinking_content_of total_content) /\
  exists before after,
    total_content = before ++ thinking_content_of total_content ++ after.
Proof. apply thinking_content_clean. Qed.

End TextTheorems.

(** ** More about the rounds *)

(** A response the script can read: it has a first output with a first
    completion. *)
Definition usable (c : Call) : Prop :=
  exists total, prompt_plus_text (call_response c) = Ok total.

Section RoundFacts.

Context {tok : Tokenizer}.

Lemma count_err (outs : list RequestOutput) (e : Exception) :
  count_thinking_token outs = Err e ->
  prompt_plus_text outs = Err e /\ e = IndexError.
Proof.
  unfold count_thinking_token, prompt_plus_text.
  destruct outs as [|o outs]; cbn.
  - intros E. inversion E. auto.
  - destruct (outputs o); cbn; intros E; inversion E. auto.
Qed.

Lemma replay_inputs_follow (B : Z) :
  forall fuel rs l cs ls o,
    replay fuel B l rs = (cs, ls, o) ->
    inputs_follow (input_text l) cs.
Proof.
  induction fuel as [|fuel IH]; intros rs l cs ls o H; cbn [replay] in H.
  - inversion H. exact I.
  - destruct (wait_sampling_params B (think_token_count l)) as [params|e];
      [|inversion H; exact I].
    destruct rs as [|r rs]; [inversion H; exact I|].
    destruct (count_thinking_token r) as [[total n]|e] eqn:Hcount.
    + pose proof (count_total _ _ _ Hcount) as Ht.
      destruct (n >? B).
      * inversion H; subst. cbn. rewrite Ht. cbn. auto.
      * destruct (replay fuel B _ rs) as [[cs' ls'] o'] eqn:E.
        inversion H; subst. cbn. rewrite Ht. split; [reflexivity|].
        apply (IH _ _ _ _ _ E).
    + apply count_err in Hcount. destruct Hcount as [Hcount _].
      inversion H; subst. cbn. rewrite Hcount. auto.
Qed.

Lemma replay_line_numbers (B : Z) :
  forall fuel rs l cs ls o,
    replay fuel B l rs = (cs, ls, o) ->
    map line_iteration ls
      = map (fun i => Some (iteration_count l + Z.of_nat i))
            (seq 0 (List.length ls)).
Proof.
  induction fuel as [|fuel IH]; intros rs l cs ls o H; cbn [replay] in H.
  - inversion H. reflexivity.
  - destruct (wait_sampling_params B (think_token_count l)) as [params|e];
      [|inversion H; reflexivity].
    destruct rs as [|r rs]; [inversion H; reflexivity|].
    destruct (count_thinking_token r) as [[total n]|e] eqn:Hcount.
    + destruct (n >? B).
      * inversion H; subst. cbn. do 2 f_equal. lia.
      * destruct (replay fuel B _ rs) as [[cs' ls'] o'] eqn:E.
        inversion H; subst. cbn [List.length seq map line_iteration].
        f_equal; [f_equal; lia|].
        rewrite (IH _ _ _ _ _ E), <- seq_shift, map_map.
        apply map_ext. intros i. cbn. f_equal. lia.
    + inversion H. reflexivity.
Qed.

(** Which responses were readable, and how many lines were printed. *)
Lemma replay_usable (B : Z) :
  forall fuel rs l cs ls o,
    replay fuel B l rs = (cs, ls, o) ->
    Forall (fun line => exists i n, line = RoundLine i n) ls /\
    match o with
    | Raised IndexError =>
        exists cs0 c,
          cs = (cs0 ++ [c])%list /\
          prompt_plus_text (call_response c) = Err IndexError /\
          Forall usable cs0 /\ List.length ls = List.length cs0
    | _ => Forall usable cs /\ List.length ls = List.length cs
    end.
Proof.
  induction fuel as [|fuel IH]; intros rs l cs ls o H; cbn [replay] in H.
  - inversion H. auto.
  - destruct (wait_sampling_params B (think_token_count l)) as [params|e]
      eqn:Hp.
    2:{ apply wait_sampling_params_err in Hp. destruct Hp as [-> _].
        inversion H. auto. }
    destruct rs as [|r rs]; [inversion H; auto|].
    destruct (count_thinking_token r) as [[total n]|e] eqn:Hcount.
    + assert (Hu : usable (loop_call l params r))
        by (exists total; apply (count_total _ _ _ Hcount)).
      destruct (n >? B).
      * inversion H; subst. split; [|split]; repeat constructor; eauto.
      * destruct (replay fuel B _ rs) as [[cs' ls'] o'] eqn:E.
        inversion H; subst. destruct (IH _ _ _ _ _ E) as [Hl Ho].
        split; [constructor; eauto|].
        destruct o as [a|[|]|].
        -- destruct Ho as [Hall Hlen]. split; [constructor; auto|cbn; lia].
        -- destruct Ho as (cs0 & c & -> & He & Hall & Hlen).
           exists (loop_call l params r :: cs0), c.
           repeat split; auto. cbn. lia.
        -- destruct Ho as [Hall Hlen]. split; [constructor; auto|cbn; lia].
        -- destruct Ho as [Hall Hlen]. split; [constructor; auto|cbn; lia].
    + apply count_err in Hcount. destruct Hcount as [Hcount ->].
      inversion H; subst.
      split; [constructor|].
      exists [], (loop_call l params r). repeat split; auto.
Qed.

(** While the loop has not left, no measured count has passed the budget. *)
Lemma replay_running (B : Z) :
  forall fuel rs l cs ls,
    replay fuel B l rs = (cs, ls, OutOfFuel) ->
    Forall (fun line => exists n, line_count line = Some n /\ n <= B) ls.
Proof.
  induction fuel as [|fuel IH]; intros rs l cs ls H; cbn [replay] in H.
  - inversion H. constructor.
  - destruct (wait_sampling_params B (think_token_count l)) as [params|e];
      [|discriminate].
    destruct rs as [|r rs]; [inversion H; constructor|].
    destruct (count_thinking_token r) as [[total n]|e] eqn:Hcount;
      [|discriminate].
    destruct (n >? B) eqn:Hgt; [discriminate|].
    destruct (replay fuel B _ rs) as [[cs' ls'] o'] eqn:E.
    inversion H; subst.
    constructor; [|apply (IH _ _ _ _ E)].
    exists n. split; [reflexivity|].
    destruct (Z.gtb_spec n B); [discriminate|lia].
Qed.

(** With an engine that echoes its prompt, the text handed on is the first
    input followed by the continuations, wait markers between them. *)
Lemma replay_echo (B : Z) :
  forall fuel rs l cs ls l' outs,
    replay fuel B l rs = (cs, ls, Returned (l', outs)) ->
    Forall echoes cs ->
    prompt_plus_text outs
      = Ok (input_text l
            ++ join wait_marker
                 (map (fun c => response_text (call_response c)) cs)).
Proof.
  induction fuel as [|fuel IH]; intros rs l cs ls l' outs H Hecho;
    cbn [replay] in H.
  - discriminate.
  - destruct (wait_sampling_params B (think_token_count l)) as [params|e];
      [|discriminate].
    destruct rs as [|r rs]; [discriminate|].
    destruct (count_thinking_token r) as [[total n]|e] eqn:Hcount;
      [|discriminate].
    pose proof (count_total _ _ _ Hcount) as Ht.
    destruct (n >? B).
    + inversion H; subst; clear H. inversion Hecho as [|c cs' Hc _]; subst.
      destruct Hc as (t & ro & rest & Hc). cbn in Hc. subst outs.
      reflexivity.
    + destruct (replay fuel B _ rs) as [[cs' ls'] o'] eqn:E.
      inversion H; subst; clear H.
      inversion Hecho as [|c cs'' Hc Hrest]; subst.
      rewrite (IH _ _ _ _ _ _ E Hrest). cbn [input_text continue_locals map].
      destruct Hc as (t & ro & rest & Hc). cbn in Hc. subst r.
      cbn in Ht. inversion Ht; subst total. cbn [response_text call_response
        loop_call outputs].
      destruct (replay_returned _ _ _ _ _ _ _ _ E)
        as (_ & _ & _ & cs0 & c & _ & -> & _).
      rewrite join_cons by (rewrite map_app; destruct cs0; discriminate).
      now rewrite !append_assoc.
Qed.

End RoundFacts.

Section RunTheorems.

Context {M : Type} {llm : LLM M} {tok : Tokenizer}.

(** The whole run, by the outcome of its loop. *)
Lemma run_cases (fuel : nat) (u : string) (B : Z) (m : M) (now : Z) o w' :
  run_thinking_budget_sample fuel u B (init_world m now) = (o, w') ->
  exists loop_calls rounds,
    Forall (fun line => exists i n, line = RoundLine i n) rounds /\
    Forall usable loop_calls /\
    ((o = OutOfFuel /\ calls w' = loop_calls /\
      stdout w' = rounds /\ files w' = []) \/
     (o = Raised ValueError /\ calls w' = loop_calls /\
      stdout w' = rounds /\ files w' = []) \/
     (exists c,
        o = Raised IndexError /\ calls w' = (loop_calls ++ [c])%list /\
        prompt_plus_text (call_response c) = Err IndexError /\
        stdout w' = rounds /\ files w' = []) \/
     (exists final total_content s,
        o = Returned tt /\ calls w' = (loop_calls ++ [final])%list /\
        usable final /\
        stdout w' = (rounds ++ [TextLine total_content; SummaryLine s])%list /\
        files w' = [ {| file_timestamp := now; file_content := total_content;
                        file_summary := s |} ])).
Proof.
  intros Hrun.
  destruct (while_true fuel B (loop_init (build_input u)) (init_world m now))
    as [lo w1] eqn:Hloop.
  destruct (loop_from_init _ _ _ _ _ _ _ Hloop) as (Hrep & _ & Hf & _).
  destruct (replay_usable _ _ _ _ _ _ _ Hrep) as [Hlines Hcase].
  destruct lo as [[l outs]|[|]|].
  - destruct Hcase as [Hall _].
    destruct (run_after_loop _ _ _ _ _ _ _ _ Hloop)
      as (acc & m' & response & _ & _ & o2 & w2 & Hrun2 & Hcalls & Hfin).
    rewrite Hrun in Hrun2. inversion Hrun2; subst o2 w2; clear Hrun2.
    exists (calls w1), (stdout w1). split; [exact Hlines|].
    split; [exact Hall|]. right. right.
    destruct (prompt_plus_text response) as [tc|e] eqn:Hresp.
    + right. destruct Hfin as (-> & Hs & Hfiles).
      exists (final_call acc response), tc,
        (final_summary (count_token (build_input u)) l tc).
      repeat split; auto. exists tc. exact Hresp.
    + left. destruct Hfin as (-> & Hs & Hfiles).
      assert (e = IndexError) as ->.
      { unfold prompt_plus_text in Hresp.
        destruct response as [|ro rr]; cbn in Hresp;
          [inversion Hresp; reflexivity|].
        destruct (outputs ro); cbn in Hresp; inversion Hresp; reflexivity. }
      exists (final_call acc response). repeat split; auto.
  - rewrite run_eq, Hloop in Hrun. inversion Hrun; subst o w'; clear Hrun.
    destruct Hcase as (cs0 & c & Hcs & He & Hall & _).
    exists cs0, (stdout w1). split; [exact Hlines|]. split; [exact Hall|].
    right. right. left. exists c. repeat split; auto.
  - rewrite run_eq, Hloop in Hrun. inversion Hrun; subst o w'; clear Hrun.
    destruct Hcase as [Hall _].
    exists (calls w1), (stdout w1). split; [exact Hlines|].
    split; [exact Hall|]. right. left. repeat split; auto.
  - rewrite run_eq, Hloop in Hrun. inversion Hrun; subst o w'; clear Hrun.
    destruct Hcase as [Hall _].
    exists (calls w1), (stdout w1). split; [exact Hlines|].
    split; [exact Hall|]. left. repeat split; auto.
Qed.

Lemma usable_not_err (c : Call) (e : Exception) :
  usable c -> prompt_plus_text (call_response c) <> Err e.
Proof. intros [t H]. rewrite H. discriminate. Qed.

(** X6.  The output file is written exactly when the run returns, and then
    it holds the transcript and the summary that were printed, under the
    clock's time.  A run that raises, or is still looping, leaves no file and
    has printed nothing but round lines. *)
Theorem file_written_only_on_return (fuel : nat) (u : string) (B : Z)
  (m : M) (now : Z) :
  let o := fst (run_thinking_budget_sample fuel u B (init_world m now)) in
  let w' := snd (run_thinking_budget_sample fuel u B (init_world m now)) in
  (o = Returned tt /\
   exists rounds total_content s,
     Forall (fun line => exists i n, line = RoundLine i n) rounds /\
     stdout w' = (rounds ++ [TextLine total_content; SummaryLine s])%list /\
     files w' = [ {| file_timestamp := now; file_content := total_content;
                     file_summary := s |} ]) \/
  (o <> Returned tt /\
   files w' = [] /\
   Forall (fun line => exists i n, line = RoundLine i n) (stdout w')).
Proof.
  destruct (run_thinking_budget_sample fuel u B (init_world m now))
    as [o w'] eqn:Hrun. cbn.
  destruct (run_cases _ _ _ _ _ _ _ Hrun)
    as (cs & rounds & Hlines & _ & Hcase).
  destruct Hcase as [(-> & _ & Hs & Hf)
                    |[(-> & _ & Hs & Hf)
                     |[(c & -> & _ & _ & Hs & Hf)
                      |(final & tc & s & -> & _ & _ & Hs & Hf)]]].
  - right. rewrite Hs. repeat split; auto. discriminate.
  - right. rewrite Hs. repeat split; auto. discriminate.
  - right. rewrite Hs. repeat split; auto. discriminate.
  - left. split; [reflexivity|]. exists rounds, tc, s. auto.
Qed.

(** X7.  A run raises exactly when the engine gave a response the script
    cannot read (no output, or an output without completion): there are no
    retries, the exception is [IndexError], the unreadable response is that
    of the last call issued, and every response before it was readable. *)
Theorem raises_on_first_unreadable_response (fuel : nat) (u : string)
  (B : Z) (m : M) (now : Z) :
  let o := fst (run_thinking_budget_sample fuel u B (init_world m now)) in
  let w' := snd (run_thinking_budget_sample fuel u B (init_world m now)) in
  (o = Raised IndexError <->
   exists c, In c (calls w') /\
             prompt_plus_text (call_response c) = Err IndexError) /\
  (o = Raised IndexError ->
   exists before c,
     calls w' = (before ++ [c])%list /\
     prompt_plus_text (call_response c) = Err IndexError /\
     Forall usable before).
Proof.
  destruct (run_thinking_budget_sample fuel u B (init_world m now))
    as [o w'] eqn:Hrun. cbn.
  destruct (run_cases _ _ _ _ _ _ _ Hrun)
    as (cs & rounds & _ & Hall & Hcase).
  assert (Hnone : calls w' = cs ->
                  ~ exists c, In c (calls w') /\
                              prompt_plus_text (call_response c)
                              = Err IndexError).
  { intros Hc (c & Hin & He). rewrite Hc in Hin.
    rewrite Forall_forall in Hall.
    exact (usable_not_err _ _ (Hall c Hin) He). }
  destruct Hcase as [(-> & Hc & _)
                    |[(-> & Hc & _)
                     |[(c & -> & Hc & He & _)
                      |(final & tc & s & -> & Hc & Hfin & _)]]].
  - split; [split|]; try discriminate. intros H. destruct (Hnone Hc H).
  - split; [split|]; try discriminate. intros H. destruct (Hnone Hc H).
  - split; [split|]; intros _.
    + exists c. split; [|exact He]. rewrite Hc. apply in_or_app. right.
      now left.
    + reflexivity.
    + exists cs, c. auto.
  - split; [split|]; try discriminate.
    intros (c & Hin & He). rewrite Hc in Hin.
    apply in_app_or in Hin. rewrite Forall_forall in Hall.
    exfalso. destruct Hin as [Hin|[<-|[]]].
    + exact (usable_not_err _ _ (Hall c Hin) He).
    + exact (usable_not_err _ _ Hfin He).
Qed.

(** X8.  The round lines are numbered 0, 1, 2, ... in the order printed, one
    per in-loop call; only a round that raises prints none. *)
Theorem round_lines_numbered (fuel : nat) (u : string) (B : Z) (m : M)
  (now : Z) :
  let o := fst (while_true fuel B (loop_init (build_input u))
                  (init_world m now)) in
  let w' := snd (while_true fuel B (loop_init (build_input u))
                   (init_world m now)) in
  map line_iteration (stdout w')
    = map (fun i => Some (Z.of_nat i)) (seq 0 (List.length (stdout w'))) /\
  (o <> Raised IndexError ->
   List.length (stdout w') = List.length (calls w')) /\
  (o = Raised IndexError ->
   S (List.length (stdout w')) = List.length (calls w')).
Proof.
  destruct (while_true fuel B (loop_init (build_input u)) (init_world m now))
    as [o w'] eqn:Hloop. cbn [fst snd].
  destruct (loop_from_init _ _ _ _ _ _ _ Hloop) as (Hrep & _).
  pose proof (replay_line_numbers _ _ _ _ _ _ _ Hrep) as Hnum.
  destruct (replay_usable _ _ _ _ _ _ _ Hrep) as [_ Hcase].
  split; [|split].
  - rewrite Hnum. apply map_ext. intros i. reflexivity.
  - intros Ho. destruct o as [a|[|]|]; try congruence; apply Hcase.
  - intros ->. destruct Hcase as (cs0 & c & -> & _ & _ & ->).
    rewrite length_app. cbn. lia.
Qed.

(** X9.  The rounds chain their inputs: the first in-loop call is given the
    rendered prompt, and each later one the prompt plus continuation of the
    response before it, followed by the wait marker. *)
Theorem loop_inputs_chain (fuel : nat) (u : string) (B : Z) (m : M)
  (now : Z) :
  let w' := snd (while_true fuel B (loop_init (build_input u))
                   (init_world m now)) in
  inputs_follow (build_input u) (calls w').
Proof.
  destruct (while_true fuel B (loop_init (build_input u)) (init_world m now))
    as [o w'] eqn:Hloop. cbn [snd].
  destruct (loop_from_init _ _ _ _ _ _ _ Hloop) as (Hrep & _).
  apply (replay_inputs_follow _ _ _ _ _ _ _ Hrep).
Qed.

(** X10.  With an engine that echoes its prompt, the input of the final call
    is the rendered prompt, then the continuations of the rounds with a wait
    marker between each two, then the close marker; there is one
    continuation per round, so the wait marker occurs as often as the
    iteration counter says. *)
Theorem echo_final_input (fuel : nat) (u : string) (B : Z) (m : M) (now : Z)
  l outs w1 :
  while_true fuel B (loop_init (build_input u)) (init_world m now)
    = (Returned (l, outs), w1) ->
  Forall echoes (calls w1) ->
  let texts := map (fun c => response_text (call_response c)) (calls w1) in
  exists o w' final,
    run_thinking_budget_sample fuel u B (init_world m now) = (o, w') /\
    calls w' = (calls w1 ++ [final])%list /\
    call_input final
      = build_input u ++ join wait_marker texts ++ close_marker /\
    Z.of_nat (List.length texts) = iteration_count l + 1.
Proof.
  intros Hloop Hecho texts.
  destruct (loop_from_init _ _ _ _ _ _ _ Hloop) as (Hrep & _).
  pose proof (replay_echo _ _ _ _ _ _ _ _ Hrep Hecho) as Htext.
  destruct (replay_returned _ _ _ _ _ _ _ _ Hrep) as (_ & Hit & _).
  destruct (run_after_loop _ _ _ _ _ _ _ _ Hloop)
    as (acc & m' & response & Hacc & _ & o & w' & Hrun & Hcalls & _).
  rewrite Htext in Hacc. inversion Hacc; subst acc.
  exists o, w', (final_call
                   (input_text (loop_init (build_input u))
                    ++ join wait_marker texts) response).
  repeat split; auto.
  - cbn. now rewrite append_assoc.
  - unfold texts. rewrite length_map. cbn in Hit. lia.
Qed.

(** X11.  While the loop is still running, every count it has measured is at
    most the budget; it has then issued one call and printed one line per
    round of fuel. *)
Theorem running_loop_is_within_budget (fuel : nat) (u : string) (B : Z)
  (m : M) (now : Z) w' :
  while_true fuel B (loop_init (build_input u)) (init_world m now)
    = (OutOfFuel, w') ->
  List.length (calls w') = fuel /\
  List.length (stdout w') = fuel /\
  Forall (fun line => exists n, line_count line = Some n /\ n <= B)
         (stdout w').
Proof.
  intros Hloop.
  destruct (loop_from_init _ _ _ _ _ _ _ Hloop) as (Hrep & _ & _ & _ & Hlen).
  specialize (Hlen eq_refl).
  destruct (replay_usable _ _ _ _ _ _ _ Hrep) as [_ [_ Hl]].
  pose proof (replay_running _ _ _ _ _ _ Hrep) as Hall.
  repeat split; auto. lia.
Qed.

(** X12.  [run_sample] issues exactly one generation call, with the rendered
    prompt, a cap of 32768 tokens and no stop marker.  If the response is
    unreadable it raises [IndexError] and prints nothing; otherwise it prints
    the transcript and the three counts, the thinking count being that of a
    part of the transcript that holds neither tag. *)
Theorem run_sample_one_call (u : string) (m : M) :
  let o := fst (run_sample u m) in
  let w' := snd (run_sample u m) in
  exists response,
    sample_calls w' = [ {| call_input := build_input u;
                           call_params := sample_params;
                           call_response := response |} ] /\
    max_tokens sample_params = 32768 /\
    stop sample_params = None /\
    ((prompt_plus_text response = Err IndexError /\
      o = Raised IndexError /\ sample_stdout w' = []) \/
     (exists total_content thinking,
        prompt_plus_text response = Ok total_content /\
        o = Returned tt /\
        sample_stdout w'
          = [ SampleText total_content;
              SampleCounts (count_token (build_input u))
                           (count_token thinking)
                           (count_token total_content) ] /\
        contains thinking total_content /\
        ~ contains think_open thinking /\
        ~ contains think_close thinking)).
Proof.
  unfold run_sample.
  destruct (generate m (build_input u) sample_params) as [m' response].
  exists response. cbn zeta.
  destruct (prompt_plus_text response) as [tc|e] eqn:E; cbn [fst snd].
  - do 3 (split; [reflexivity|]). right.
    destruct (thinking_content_clean tc) as (Ho & Hc & a & b & Hab).
    exists tc, (thinking_content_of tc). repeat split; auto.
    exists a, b. exact Hab.
  - assert (e = IndexError) as ->.
    { unfold prompt_plus_text in E.
      destruct response as [|ro rr]; cbn in E; [inversion E; reflexivity|].
      destruct (outputs ro); cbn in E; inversion E; reflexivity. }
    do 3 (split; [reflexivity|]). left. auto.
Qed.

End RunTheorems.

(** X13.  Splitting finds every marker: a text splits into a single piece,
    itself, exactly when it does not contain the marker. *)
Theorem split_single_piece_iff (sep s : string) :
  sep <> EmptyString ->
  (split sep s = [s] <-> ~ contains sep s).
Proof.
  intros Hsep.
  pose proof (split_from_join sep Hsep s 0 ltac:(lia)) as Hjoin.
  pose proof (split_from_not_nil sep s 0) as Hne.
  fold (split sep s) in Hjoin, Hne. cbn [drop] in Hjoin.
  split.
  - intros E H. apply (split_two_pieces sep Hsep) in H.
    rewrite E in H. cbn in H. lia.
  - intros Hno. destruct (split sep s) as [|x [|y l]] eqn:E.
    + congruence.
    + cbn in Hjoin. now subst x.
    + exfalso. apply Hno.
      rewrite join_cons in Hjoin by discriminate.
      exists x, (join sep (y :: l)). now rewrite Hjoin.
Qed.

(** ** More concrete runs *)

(** A text with two opening markers. *)
Lemma split_join_round_trip_witness :
  join think_open_nl (split think_open_nl ("a<think>" ++ nl ++ "b<think>" ++ nl))
    = "a<think>" ++ nl ++ "b<think>" ++ nl /\
  split think_open_nl ("a<think>" ++ nl ++ "b<think>" ++ nl)
    = ["a"; "b"; EmptyString].
Proof.
  split.
  - apply (split_join_round_trip think_open_nl). discriminate.
  - reflexivity.
Defined.

(** A response that opens its reasoning: three tokens are counted. *)
Lemma thinking_text_follows_last_marker_witness :
  exists before thinking,
    "Q: " ++ think_open_nl ++ "abc" = before ++ thinking /\
    3 = count_token (tok := Mock.CharTokenizer) thinking /\
    ~ contains think_open_nl thinking /\
    (before = EmptyString \/ ends_with before think_open_nl).
Proof.
  apply (thinking_text_follows_last_marker (tok := Mock.CharTokenizer)
           [ {| prompt := "Q: ";
                outputs := [ {| text := think_open_nl ++ "abc" |} ] |} ]).
  reflexivity.
Defined.

(** A response that never opens its reasoning: the prompt is counted too. *)
Lemma no_marker_counts_whole_text_witness :
  count_thinking_token (tok := Mock.CharTokenizer)
    [ {| prompt := "Q: "; outputs := [ {| text := "abc" |} ] |} ]
    = Ok ("Q: abc", 6).
Proof.
  apply (no_marker_counts_whole_text (tok := Mock.CharTokenizer)
           [ {| prompt := "Q: "; outputs := [ {| text := "abc" |} ] |} ]
           "Q: abc").
  - reflexivity.
  - intros H.
    apply (split_two_pieces think_open_nl ltac:(discriminate)) in H.
    vm_compute in H. lia.
Defined.

(** A text without the closing tag. *)
Lemma split_single_piece_iff_witness :
  split think_close "no tag here" = ["no tag here"] <->
  ~ contains think_close "no tag here".
Proof.
  apply (split_single_piece_iff think_close "no tag here"). discriminate.
Defined.

(** The three-round run: the final input holds two wait markers. *)
Lemma echo_final_input_witness :
  exists o w' final,
    Runs.echo_run (Mock.steady 40) 5 100 = (o, w') /\
    List.length (calls w') = 4%nat /\
    call_input final
      = build_input (tok := Mock.CharTokenizer) Runs.question
        ++ join wait_marker
             [think_open_nl ++ Mock.xs 40; Mock.xs 33; Mock.xs 33]
        ++ close_marker.
Proof.
  assert (Hloop : exists l outs,
             Runs.echo_loop (Mock.steady 40) 5 100
             = (Returned (l, outs),
                snd (Runs.echo_loop (Mock.steady 40) 5 100))).
  { eexists _, _. apply Runs.pair_of_fst. vm_compute. reflexivity. }
  destruct Hloop as (l & outs & Hloop).
  destruct (echo_final_input (llm := Mock.EchoLLM (Mock.steady 40))
              (tok := Mock.CharTokenizer) 5 Runs.question 100 0%nat 7
              l outs _ Hloop)
    as (o & w' & final & Hrun & Hcalls & Hinput & _).
  - vm_compute.
    repeat (apply Forall_cons; [do 3 eexists; reflexivity|]).
    apply Forall_nil.
  - exists o, w', final. split; [exact Hrun|]. split.
    + rewrite Hcalls, length_app. vm_compute. reflexivity.
    + rewrite Hinput. vm_compute. reflexivity.
Defined.

(** The re-opening model after three rounds of a budget of 100. *)
Lemma running_loop_is_within_budget_witness :
  List.length
    (calls (snd (while_true (llm := Mock.SeqLLM (fun _ => Mock.reopen))
                   (tok := Mock.CharTokenizer) 3 100
                   (loop_init (build_input (tok := Mock.CharTokenizer)
                                 Runs.question))
                   (init_world 0%nat 7)))) = 3%nat /\
  Forall (fun line => exists n, line_count line = Some n /\ n <= 100)
    (stdout (snd (while_true (llm := Mock.SeqLLM (fun _ => Mock.reopen))
                    (tok := Mock.CharTokenizer) 3 100
                    (loop_init (build_input (tok := Mock.CharTokenizer)
                                  Runs.question))
                    (init_world 0%nat 7)))).
Proof.
  destruct (running_loop_is_within_budget
              (llm := Mock.SeqLLM (fun _ => Mock.reopen))
              (tok := Mock.CharTokenizer) 3 Runs.question 100 0%nat 7
              (snd (while_true (llm := Mock.SeqLLM (fun _ => Mock.reopen))
                      (tok := Mock.CharTokenizer) 3 100
                      (loop_init (build_input (tok := Mock.CharTokenizer)
                                    Runs.question))
                      (init_world 0%nat 7))))
    as (Hc & _ & Hall).
  - apply Runs.pair_of_fst. vm_compute. reflexivity.
  - split; [exact Hc | exact Hall].
Defined.

(** ** A model that advances *)

(** The counts the round lines report, in order. *)
Definition round_counts (ls : list Line) : list Z :=
  flat_map (fun l => match line_count l with
                     | Some n => [n]
                     | None => []
                     end) ls.

(** Each number is smaller than the next. *)
Fixpoint increasing (l : list Z) : Prop :=
  match l with
  | a :: (b :: _) as rest => a < b /\ increasing rest
  | _ => True
  end.

Lemma increasing_bounded (B : Z) :
  forall l lo,
    increasing l ->
    Forall (fun n => lo <= n <= B) l ->
    Z.of_nat (List.length l) <= Z.max 0 (B - lo + 1).
Proof.
  induction l as [|a l IH]; intros lo Hinc Hall.
  - cbn. lia.
  - inversion Hall as [|x y Ha Hrest]; subst.
    destruct l as [|b l].
    + cbn. lia.
    + destruct Hinc as [Hab Hinc].
      specialize (IH (a + 1) Hinc).
      assert (Hall' : Forall (fun n => a + 1 <= n <= B) (b :: l)).
      { clear IH. revert Hab Hinc Hrest. generalize a as a0. clear.
        revert b. induction l as [|c l IHl]; intros b a0 Hab Hinc Hrest.
        - inversion Hrest; subst. constructor; [lia|constructor].
        - inversion Hrest as [|x y Hb Hr]; subst.
          destruct Hinc as [Hbc Hinc].
          constructor; [lia|].
          apply (IHl c a0); [lia | exact Hinc |].
          inversion Hr; subst. constructor; [lia|assumption]. }
      specialize (IH Hall').
      change (List.length (a :: b :: l)) with (S (List.length (b :: l))).
      rewrite Nat2Z.inj_succ. lia.
Qed.

Lemma round_counts_cons (i n : Z) (ls : list Line) :
  round_counts (RoundLine i n :: ls) = n :: round_counts ls.
Proof. reflexivity. Qed.

Lemma replay_counts_nonneg {tok : Tokenizer} (B : Z) :
  forall fuel rs l cs ls o,
    replay fuel B l rs = (cs, ls, o) ->
    Forall (fun n => 0 <= n) (round_counts ls) /\
    List.length (round_counts ls) = List.length ls.
Proof.
  induction fuel as [|fuel IH]; intros rs l cs ls o H; cbn [replay] in H.
  - inversion H. cbn. auto.
  - destruct (wait_sampling_params B (think_token_count l)) as [params|e];
      [|inversion H; cbn; auto].
    destruct rs as [|r rs]; [inversion H; cbn; auto|].
    destruct (count_thinking_token r) as [[total n]|e] eqn:Hcount.
    + apply count_nonneg in Hcount.
      destruct (n >? B).
      * inversion H; subst. cbn. auto.
      * destruct (replay fuel B _ rs) as [[cs' ls'] o'] eqn:E.
        inversion H; subst. destruct (IH _ _ _ _ _ E) as [Hall Hlen].
        rewrite round_counts_cons. cbn [List.length].
        split; [constructor; auto | now rewrite Hlen].
    + inversion H. cbn. auto.
Qed.

Lemma round_counts_within (B : Z) (ls : list Line) :
  Forall (fun line => exists n, line_count line = Some n /\ n <= B) ls ->
  Forall (fun n => n <= B) (round_counts ls).
Proof.
  induction 1 as [|line ls (n & Hn & Hle) _ IH]; [constructor|].
  unfold round_counts. cbn [flat_map]. rewrite Hn. cbn [app].
  constructor; assumption.
Qed.

(** X14.  A model that advances cannot keep the loop running: in a run whose
    measured counts increase from each round to the next, with a budget that
    is not negative and fuel for [B + 2] rounds, the loop has left, by the
    break or by an exception.  (With the character tokenizer and an echoing
    engine the wait marker alone advances the count.) *)
Theorem advancing_model_leaves_loop {M : Type} {llm : LLM M}
  {tok : Tokenizer} (fuel : nat) (u : string) (B : Z) (m : M) (now : Z)
  o w' :
  0 <= B ->
  while_true fuel B (loop_init (build_input u)) (init_world m now) = (o, w') ->
  (Z.to_nat B + 2 <= fuel)%nat ->
  increasing (round_counts (stdout w')) ->
  o <> OutOfFuel.
Proof.
  intros HB Hloop Hfuel Hinc.
  destruct (loop_from_init _ _ _ _ _ _ _ Hloop) as (Hrep & _ & _ & _ & Hout).
  destruct (replay_counts_nonneg _ _ _ _ _ _ _ Hrep) as [Hnn Hlen].
  destruct (replay_usable _ _ _ _ _ _ _ Hrep) as [_ Hcase].
  intros ->. specialize (Hout eq_refl).
  destruct Hcase as [_ Hl].
  pose proof (replay_running _ _ _ _ _ _ Hrep) as Hall.
  apply round_counts_within in Hall.
  pose proof (increasing_bounded B _ 0 Hinc) as Hbound.
  assert (Hboth : Forall (fun n => 0 <= n <= B) (round_counts (stdout w'))).
  { rewrite Forall_forall in *. intros n Hn.
    split; [apply Hnn | apply Hall]; exact Hn. }
  specialize (Hbound Hboth). lia.
Qed.

(** Budget 100 with fuel for 102 rounds: the counts 40, 80, 120 increase and
    the loop has returned. *)
Lemma advancing_model_leaves_loop_witness :
  round_counts (stdout (snd (Runs.echo_loop (Mock.steady 40) 102 100)))
    = [40; 80; 120] /\
  fst (Runs.echo_loop (Mock.steady 40) 102 100) <> OutOfFuel.
Proof.
  assert (Hc : round_counts
                 (stdout (snd (Runs.echo_loop (Mock.steady 40) 102 100)))
               = [40; 80; 120]) by (vm_compute; reflexivity).
  split; [exact Hc|].
  apply (advancing_model_leaves_loop (llm := Mock.EchoLLM (Mock.steady 40))
           (tok := Mock.CharTokenizer) 102 Runs.question 100 0%nat 7
           _ (snd (Runs.echo_loop (Mock.steady 40) 102 100))).
  - lia.
  - apply surjective_pairing.
  - vm_compute. lia.
  - rewrite Hc. cbn. lia.
Defined.
